(** * Verification of the dev-mode supervisor of bun-sample-app

    Shallow embedding of [dev_startup.sh] (its first script, lines 1-207:
    startup, [hash_files], [watch_dependencies], [cleanup] and the main
    loop) and of the port selection of [index.ts].

    The shell runs under [set -euo pipefail] (line 46).  The embedding keeps
    the three consequences that matter here:
    - a pipeline's status is the status of its rightmost failing stage
      ([pipefail]);
    - an assignment [x=$(...)] has the status of its command substitution;
    - a simple command (or assignment) with a non-zero status that is not
      guarded by [||], [&&], [if] or [while] ends the (sub)shell running it
      ([errexit]); the background watcher [watch_dependencies &] is such a
      subshell and inherits the options. *)

From Stdlib Require Import ZArith String Ascii List Bool Lia.
Import ListNotations.
Open Scope Z_scope.

(** ** SHA-256, as computed by [sha256sum] *)

Module Sha256.

Definition mask32 : Z := 4294967295.
Definition add32 (x y : Z) : Z := Z.land (x + y) mask32.
Definition rotr (x : Z) (n : Z) : Z :=
  Z.lor (Z.shiftr x n) (Z.land (Z.shiftl x (32 - n)) mask32).

Definition ch (e f g : Z) : Z :=
  Z.lxor (Z.land e f) (Z.land (Z.lxor e mask32) g).
Definition maj (a b c : Z) : Z :=
  Z.lxor (Z.land a b) (Z.lxor (Z.land a c) (Z.land b c)).
Definition bsig0 (a : Z) : Z := Z.lxor (rotr a 2) (Z.lxor (rotr a 13) (rotr a 22)).
Definition bsig1 (e : Z) : Z := Z.lxor (rotr e 6) (Z.lxor (rotr e 11) (rotr e 25)).
Definition ssig0 (w : Z) : Z := Z.lxor (rotr w 7) (Z.lxor (rotr w 18) (Z.shiftr w 3)).
Definition ssig1 (w : Z) : Z := Z.lxor (rotr w 17) (Z.lxor (rotr w 19) (Z.shiftr w 10)).

(** Round constants (first 32 bits of the fractional parts of the cube
    roots of the first 64 primes), in decimal. *)
Definition K : list Z :=
  [ 1116352408; 1899447441; 3049323471; 3921009573;
    961987163; 1508970993; 2453635748; 2870763221;
    3624381080; 310598401; 607225278; 1426881987;
    1925078388; 2162078206; 2614888103; 3248222580;
    3835390401; 4022224774; 264347078; 604807628;
    770255983; 1249150122; 1555081692; 1996064986;
    2554220882; 2821834349; 2952996808; 3210313671;
    3336571891; 3584528711; 113926993; 338241895;
    666307205; 773529912; 1294757372; 1396182291;
    1695183700; 1986661051; 2177026350; 2456956037;
    2730485921; 2820302411; 3259730800; 3345764771;
    3516065817; 3600352804; 4094571909; 275423344;
    430227734; 506948616; 659060556; 883997877;
    958139571; 1322822218; 1537002063; 1747873779;
    1955562222; 2024104815; 2227730452; 2361852424;
    2428436474; 2756734187; 3204031479; 3329325298 ].

(** The eight working variables / chaining values. *)
Record state := mk_state { va : Z; vb : Z; vc : Z; vd : Z; ve : Z; vf : Z; vg : Z; vh : Z }.

Definition H0 : state :=
  mk_state 1779033703 3144134277 1013904242 2773480762
           1359893119 2600822924 528734635 1541459225.

(** Padding: [0x80], zeros up to 56 mod 64, then the bit length as 8
    big-endian bytes. *)
Fixpoint be_bytes (n : nat) (x : Z) : list Z :=
  match n with
  | O => []
  | S n' => be_bytes n' (Z.shiftr x 8) ++ [Z.land x 255]
  end.

Definition pad (msg : list Z) : list Z :=
  let len := length msg in
  msg ++ [128] ++ repeat 0 ((119 - Nat.modulo len 64) mod 64)
      ++ be_bytes 8 (8 * Z.of_nat len).

Fixpoint words (bs : list Z) : list Z :=
  match bs with
  | b0 :: b1 :: b2 :: b3 :: rest =>
      (Z.lor (Z.shiftl b0 24) (Z.lor (Z.shiftl b1 16) (Z.lor (Z.shiftl b2 8) b3)))
        :: words rest
  | _ => []
  end.

(** Message schedule, built newest-first: [W(t-2)] is at index 1,
    [W(t-7)] at 6, [W(t-15)] at 14 and [W(t-16)] at 15. *)
Fixpoint extend (n : nat) (rw : list Z) : list Z :=
  match n with
  | O => rw
  | S n' =>
      let w := add32 (add32 (ssig1 (nth 1 rw 0)) (nth 6 rw 0))
                     (add32 (ssig0 (nth 14 rw 0)) (nth 15 rw 0)) in
      extend n' (w :: rw)
  end.

Definition schedule (block16 : list Z) : list Z := rev (extend 48 (rev block16)).

Definition round (s : state) (kw : Z * Z) : state :=
  let '(k, w) := kw in
  let t1 := add32 (add32 (add32 (vh s) (bsig1 (ve s))) (add32 (ch (ve s) (vf s) (vg s)) k)) w in
  let t2 := add32 (bsig0 (va s)) (maj (va s) (vb s) (vc s)) in
  mk_state (add32 t1 t2) (va s) (vb s) (vc s) (add32 (vd s) t1) (ve s) (vf s) (vg s).

Definition compress (h : state) (block : list Z) : state :=
  let s := fold_left round (combine K (schedule (words block))) h in
  mk_state (add32 (va h) (va s)) (add32 (vb h) (vb s)) (add32 (vc h) (vc s))
           (add32 (vd h) (vd s)) (add32 (ve h) (ve s)) (add32 (vf h) (vf s))
           (add32 (vg h) (vg s)) (add32 (vh h) (vh s)).

Fixpoint blocks (fuel : nat) (bs : list Z) : list (list Z) :=
  match fuel, bs with
  | O, _ | _, [] => []
  | S f, _ => firstn 64 bs :: blocks f (skipn 64 bs)
  end.

Definition digest (msg : list Z) : state :=
  let p := pad msg in fold_left compress (blocks (length p) p) H0.

(** Lowercase hexadecimal rendering, [n] digits, most significant first. *)
Definition hex_digit (d : Z) : ascii :=
  match String.get (Z.to_nat d) "0123456789abcdef" with
  | Some c => c
  | None => "0"%char
  end.

Fixpoint hexn (n : nat) (w : Z) : string :=
  match n with
  | O => EmptyString
  | S n' => append (hexn n' (Z.shiftr w 4)) (String (hex_digit (Z.land w 15)) EmptyString)
  end.

Definition hex (s : state) : string :=
  hexn 8 (va s) ++ hexn 8 (vb s) ++ hexn 8 (vc s) ++ hexn 8 (vd s) ++
  hexn 8 (ve s) ++ hexn 8 (vf s) ++ hexn 8 (vg s) ++ hexn 8 (vh s).

Definition bytes_of_string (s : string) : list Z :=
  map (fun c => Z.of_nat (nat_of_ascii c)) (list_ascii_of_string s).

(** The digest of a byte string, as the 64 hex digits [sha256sum] prints. *)
Definition sha256_hex (s : string) : string := hex (digest (bytes_of_string s)).

End Sha256.

Example sha256_empty_vector :
  Sha256.sha256_hex EmptyString =
  "e3b0c44298fc1c149afbf4c8996fb92427ae41e4649b934ca495991b7852b855"%string.
Proof. vm_compute. reflexivity. Qed.

Example sha256_abc_vector :
  Sha256.sha256_hex "abc" =
  "ba7816bf8f01cfea414140de5dae2223b00361a396177a9cb410ff61f20015ad"%string.
Proof. vm_compute. reflexivity. Qed.

Example sha256_two_block_vector :
  Sha256.sha256_hex "abcdbcdecdefdefgefghfghighijhijkijkljklmklmnlmnomnopnopq" =
  "248d6a61d20638b8e5c026930c3e6039a33ce45964ff2167f6ecedd419db06c1"%string.
Proof. vm_compute. reflexivity. Qed.

(** ** Shell text utilities *)

Definition nl : ascii := "010"%char.
Definition is_nl (c : ascii) : bool := Ascii.eqb c nl.
Definition is_blank (c : ascii) : bool :=
  Ascii.eqb c " "%char || Ascii.eqb c "009"%char || Ascii.eqb c nl.

Definition NL : string := String nl EmptyString.

Fixpoint drop_while (p : ascii -> bool) (l : list ascii) : list ascii :=
  match l with
  | [] => []
  | c :: l' => if p c then drop_while p l' else l
  end.

Fixpoint take_while (p : ascii -> bool) (l : list ascii) : list ascii :=
  match l with
  | [] => []
  | c :: l' => if p c then c :: take_while p l' else []
  end.

(** [$(...)]: command substitution removes every trailing newline. *)
Definition strip_nl (s : string) : string :=
  string_of_list_ascii (rev (drop_while is_nl (rev (list_ascii_of_string s)))).

(** Records of [awk], separated by newlines; a final newline ends the last
    record and opens no new one. *)
Fixpoint split_lines (cur : list ascii) (l : list ascii) : list (list ascii) :=
  match l with
  | [] => match cur with [] => [] | _ => [rev cur] end
  | c :: l' => if is_nl c then rev cur :: split_lines [] l' else split_lines (c :: cur) l'
  end.

(** [awk '{print $1}']: the first blank-separated field of every record,
    each followed by a newline (an empty field when the record has none). *)
Definition awk_print1 (s : string) : string :=
  string_of_list_ascii
    (concat (map (fun r => take_while (fun c => negb (is_blank c)) (drop_while is_blank r) ++ [nl])
                 (split_lines [] (list_ascii_of_string s)))).

(** ** Commands, exit statuses and pipelines *)

(** Outcome of a command: exit status and standard output. *)
Record res := mk_res { status : Z; out : string }.

(** [set -o pipefail]: the status of the rightmost failing stage, else 0. *)
Definition pipefail (sts : list Z) : Z :=
  fold_left (fun acc s => if Z.eqb s 0 then acc else s) sts 0.

(** State of one watched path, as [[ -f ]] and [sha256sum] observe it. *)
Inductive entry := Absent | Unreadable | Regular (contents : string).

(** The working directory, as far as the watched paths go. *)
Definition fs := string -> entry.

Definition WATCH_FILES : list string := ["package.json"; "bun.lockb"]%string.

(** [sha256sum FILE]: ["<hex>  FILE\n"], or status 1 and no output when the
    file cannot be read. *)
Definition sha256sum_file (d : fs) (f : string) : res :=
  match d f with
  | Regular c => mk_res 0 (Sha256.sha256_hex c ++ "  " ++ f ++ NL)
  | _ => mk_res 1 EmptyString
  end.

(** [sha256sum] on standard input: ["<hex>  -\n"]. *)
Definition sha256sum_stdin (input : string) : res :=
  mk_res 0 (Sha256.sha256_hex input ++ "  -" ++ NL).

(** [[ -f "$f" ] && sha256sum "$f"]. *)
Definition test_f_and_sum (d : fs) (f : string) : res :=
  match d f with
  | Absent => mk_res 1 EmptyString
  | _ => sha256sum_file d f
  end.

(** [for f in ...; do ...; done]: outputs concatenated, status of the last
    body executed (0 for an empty list).  Neither place that runs
    [hash_files] has errexit in force inside it (a command substitution, or
    the left of [||]), so a failing body does not stop the loop. *)
Definition for_files (d : fs) (fs_list : list string) : res :=
  fold_left (fun acc f => let r := test_f_and_sum d f in
                          mk_res (status r) (out acc ++ out r)) fs_list (mk_res 0 EmptyString).

(** [hash_files] of the startup (lines 92-96). *)
Definition hash_files (d : fs) : res := for_files d WATCH_FILES.

(** [hash_files] of the watcher (lines 131-136); its [cd "$WATCH_DIR"]
    succeeds, as the tick has just changed to that directory. *)
Definition watcher_hash_files (d : fs) : res := for_files d WATCH_FILES.

(** [hash_files | sha256sum | awk '{print $1}']: status under pipefail and
    raw output (before any command substitution). *)
Definition fingerprint_pipeline (hf : fs -> res) (d : fs) : res :=
  let r1 := hf d in
  let r2 := sha256sum_stdin (out r1) in
  let r3 := mk_res 0 (awk_print1 (out r2)) in
  mk_res (pipefail [status r1; status r2; status r3]) (out r3).

(** [current=$(hash_files | sha256sum | awk '{print $1}')] in the watcher. *)
Definition fingerprint (d : fs) : res :=
  let r := fingerprint_pipeline watcher_hash_files d in
  mk_res (status r) (strip_nl (out r)).

(** ** The Change Detector: [watch_dependencies] (lines 124-180) *)

(** What a tick does to the world outside the watcher. *)
Inductive action :=
  | Install                  (* [bun install] (line 169) *)
  | WriteStore (v : string)  (* [echo "$current" > "$HASH_FILE_PATH"] (line 170) *)
  | KillServers.             (* [pkill -f "bun.*index.ts"] (line 173) *)

(** Contents of [.deps_hash] ([None]: absent or unreadable). *)
Definition store := option string.

(** Outcome of a tick: actions taken, the store afterwards, and [Some code]
    when errexit ended the watcher subshell. *)
Record tick_out := mk_tick { t_actions : list action; t_store : store; t_exit : option Z }.

(** Outcome of the redirection [> "$HASH_FILE_PATH"] (line 170): [WriteFailed kept]
    when the file cannot be opened for writing or the write fails; [echo]
    then returns 1 and the file holds [kept] (unchanged when it could not
    be opened, cut short when the write failed). *)
Inductive write_result := WriteOk | WriteFailed (kept : store).

(** [previous=$(cat "$HASH_FILE_PATH" 2>/dev/null || echo ...)], the
    fallback echoing an empty string, i.e. a lone newline. *)
Definition read_previous (s : store) : string :=
  match s with
  | Some c => strip_nl c
  | None => strip_nl NL
  end.

(** One iteration of [while true] (lines 151-178), after [sleep 10] and a
    successful [cd "$WATCH_DIR"].  [inst] is the exit status [bun install]
    returns on this tick, if it is run, and [w] the outcome of the store
    write that follows it.  Logging [echo]s to standard output are taken
    to succeed; they and the [sleep 1] after [pkill] are omitted. *)
Definition tick (d : fs) (s : store) (inst : Z) (w : write_result) : tick_out :=
  let r := fingerprint d in
  if negb (Z.eqb (status r) 0) then mk_tick [] s (Some (status r))   (* errexit, line 154 *)
  else
    let current := out r in
    let previous := read_previous s in
    if negb (String.eqb current previous) then
      if negb (String.eqb current EmptyString) then
        if negb (Z.eqb inst 0) then mk_tick [Install] s (Some inst)   (* errexit, line 169 *)
        else match w with
             | WriteOk =>
                 mk_tick [Install; WriteStore current; KillServers] (Some (current ++ NL)%string) None
             | WriteFailed kept => mk_tick [Install] kept (Some 1)    (* errexit, line 170 *)
             end
      else mk_tick [] s None                                          (* line 176 *)
    else mk_tick [] s None.

(** Lines 146-148: [initial_hash=$(hash_files | sha256sum | awk ...)];
    [Some code] when errexit ends the watcher there. *)
Definition watcher_start (d : fs) : option Z :=
  let r := fingerprint d in
  if Z.eqb (status r) 0 then None else Some (status r).

(** The watcher over a sequence of ticks, each given the files it observes
    the status [bun install] would return and the outcome of the store write:
    all actions, the final store and how it stopped ([Some code]: the
    subshell exited). *)
Fixpoint run_ticks (s : store) (ticks : list (fs * Z * write_result)) :
  list action * store * option Z :=
  match ticks with
  | [] => ([], s, None)
  | (d, inst, w) :: rest =>
      let o := tick d s inst w in
      match t_exit o with
      | Some code => (t_actions o, t_store o, Some code)
      | None =>
          let '(acts, s', e) := run_ticks (t_store o) rest in
          (t_actions o ++ acts, s', e)
      end
  end.

Definition watch_dependencies (d0 : fs) (s : store) (ticks : list (fs * Z * write_result)) :
  list action * store * option Z :=
  match watcher_start d0 with
  | Some code => ([], s, Some code)
  | None => run_ticks s ticks
  end.

(** Sample directories. *)
Definition dir_of (pkg lock : entry) : fs :=
  fun f => if String.eqb f "package.json" then pkg
           else if String.eqb f "bun.lockb" then lock else Absent.

Definition pkg_v1 : string := "{ name: bun-sample }".
Definition pkg_v2 : string := "{ name: bun-sample, dependencies: { zod: 3 } }".
Definition lock_v1 : string := "lockb-1".

Definition both_present : fs := dir_of (Regular pkg_v1) (Regular lock_v1).
Definition all_absent : fs := dir_of Absent Absent.

Example fingerprint_both_present_ok : status (fingerprint both_present) = 0.
Proof. vm_compute. reflexivity. Qed.

Example fingerprint_listing :
  out (hash_files both_present) =
  (Sha256.sha256_hex pkg_v1 ++ "  package.json" ++ NL ++
   Sha256.sha256_hex lock_v1 ++ "  bun.lockb" ++ NL)%string.
Proof. vm_compute. reflexivity. Qed.

Example fingerprint_is_digest_of_listing :
  out (fingerprint both_present) = Sha256.sha256_hex (out (hash_files both_present)).
Proof. vm_compute. reflexivity. Qed.

(** ** Startup (lines 48-121) *)

(** What the startup observes: command outcomes and file presence. *)
Record startup_obs := mk_obs {
  cd_ok : bool;                (* [cd "$WORKSPACE"] (line 51) *)
  bun_on_path : bool;          (* [command -v bun] (line 60) *)
  curl_install_ok : bool;      (* [curl -fsSL ... | bash] (line 62) *)
  bun_after_install : bool;    (* [command -v bun] (line 78) after installing *)
  pkg_present : nat -> bool;   (* [[ -f "package.json" ]] at check [i], 1..30 (line 101) *)
  pkg_present_final : bool;    (* [[ ! -f "package.json" ]] (line 109) *)
  install_status : Z;          (* [bun install] (line 116) *)
  hash_dir : fs;               (* the files [hash_files] reads at line 121 *)
  store0 : store;              (* [.deps_hash] before startup *)
  touch_ok : bool;             (* [touch "$HASH_FILE"] (line 119), run when the install fails *)
  hash_write_ok : bool;        (* the redirection [> "$HASH_FILE"] of the line-121 pipeline
                                  opens the file and awk's write to it succeeds *)
  zero_write_ok : bool         (* the fallback [echo "0" > "$HASH_FILE"] (line 121) succeeds *)
}.

(** [for i in {1..30}]: check, [break] when found, else [sleep 2].
    The result lists the sleeps taken. *)
Fixpoint wait_loop (n : nat) (i : nat) (present : nat -> bool) : list Z :=
  match n with
  | O => []
  | S n' => if present i then [] else 2 :: wait_loop n' (S i) present
  end.

Definition wait_sleeps (present : nat -> bool) : list Z := wait_loop 30 1 present.

Inductive startup_outcome :=
  | StartupExit (code : Z)     (* [exit 1] *)
  | StartupDone (s : store).   (* go on to the watcher and the main loop *)

Record startup_out := mk_su {
  s_actions : list action; s_sleeps : list Z; s_outcome : startup_outcome }.

(** [hash_files | sha256sum | awk '{print $1}' > "$HASH_FILE" || echo "0" > "$HASH_FILE"]
    (line 121): the redirection truncates the file and receives awk's
    output; a failing pipeline, or a failing redirection (the pipeline then
    fails with it), makes the fallback overwrite the file with [0].  The
    fallback is the last command of the list, under errexit: [None] when it
    fails too and the script exits. *)
Definition startup_hash_write (d : fs) (hw zw : bool) : option store :=
  let r := fingerprint_pipeline hash_files d in
  let fallback := if zw then Some (Some ("0" ++ NL)%string) else None in
  if hw && Z.eqb (status r) 0 then Some (Some (out r)) else fallback.

(** The startup, lines 48-121, under [set -euo pipefail].  Logging [echo]s
    to standard output, including those with [$(pwd)], [$(ls -la)] and
    [$(bun --version)] in their arguments, are taken to succeed: the status
    of a command substitution in an argument does not trigger errexit.
    Line 70 ends in [|| true].  [HOME] and [PATH] are taken to be set
    (under nounset, expanding an unset one at lines 67-75 would end the
    script). *)
Definition startup (o : startup_obs) : startup_out :=
  if negb (cd_ok o) then mk_su [] [] (StartupExit 1) else
  if negb (bun_on_path o) && negb (curl_install_ok o) then mk_su [] [] (StartupExit 1) else
  if negb (bun_on_path o || bun_after_install o) then mk_su [] [] (StartupExit 1) else
  let sl := wait_sleeps (pkg_present o) in
  if negb (pkg_present_final o) then mk_su [] sl (StartupExit 1) else
  (* [bun install || { echo ...; touch "$HASH_FILE"; }]: the failure is
     absorbed; the [touch] is the last command of the list, under errexit,
     and only creates the file, which line 121 then rewrites. *)
  if negb (Z.eqb (install_status o) 0) && negb (touch_ok o) then
    mk_su [Install] sl (StartupExit 1)
  else
    match startup_hash_write (hash_dir o) (hash_write_ok o) (zero_write_ok o) with
    | Some st => mk_su [Install] sl (StartupDone st)
    | None => mk_su [Install] sl (StartupExit 1)                  (* errexit, line 121 *)
    end.

(** ** The Process Supervisor and the Shutdown Coordinator (lines 182-207) *)

Inductive signal := SIGINT | SIGTERM.

Definition signo (sg : signal) : Z := match sg with SIGINT => 2 | SIGTERM => 15 end.

(** Where the main loop is. *)
Inductive main_pc :=
  | AtSpawn                (* top of the loop body, line 197 *)
  | Waiting (pid : nat)    (* [wait "$BUN_PID"], line 203 *)
  | Sleeping (d : Z)       (* [sleep 2], line 206 *)
  | Exited (code : Z).     (* the script has ended *)

(** Command and environment a server is spawned with. *)
Record config := mk_config { cmd : list string; cenv : list (string * string) }.

Definition server_cmd : list string := ["bun"; "--hot"; "index.ts"]%string.

Record sup := mk_sup {
  pc : main_pc;
  alive : list nat;               (* server processes not yet exited *)
  next_pid : nat;
  bun_pid : option nat;           (* [BUN_PID] *)
  watcher_up : bool;              (* the [watch_dependencies &] subshell *)
  term_sent : list nat;           (* servers sent a termination signal *)
  spawns : list (nat * config);   (* every spawn, newest first *)
  env : list (string * string)    (* the script's exported environment *)
}.

Inductive event :=
  | EvSpawn                       (* the main loop reaches [bun --hot index.ts &] *)
  | EvExit (pid : nat) (code : Z) (* a server process exits, for any reason *)
  | EvSleepDone                   (* [sleep 2] completes *)
  | EvSignal (sg : signal)        (* INT or TERM delivered to the script *)
  | EvDetectorKill.               (* the watcher's [pkill -f "bun.*index.ts"] *)

(** [cmd || true]: status 0 whatever [cmd] returned. *)
Definition or_true (_ : Z) : Z := 0.

(** errexit on a simple command of the main shell. *)
Definition continue_or_exit (st : Z) (k : main_pc) : main_pc :=
  if Z.eqb st 0 then k else Exited st.

(** [cleanup] (lines 187-191): kill the watcher, then send TERM to
    [BUN_PID]; a signalled server is alive until it exits.  It returns
    normally. *)
Definition cleanup (s : sup) : sup :=
  mk_sup (pc s) (alive s) (next_pid s) (bun_pid s) false
         (match bun_pid s with Some p => p :: term_sent s | None => term_sent s end)
         (spawns s) (env s).

Definition with_pc (s : sup) (p : main_pc) : sup :=
  mk_sup p (alive s) (next_pid s) (bun_pid s) (watcher_up s) (term_sent s) (spawns s) (env s).

(** One step.  [None]: the event cannot happen in this state.
    A trapped signal makes a running [wait] return at once with status
    128 + signal number and then runs the trap; during the foreground
    [sleep 2] the trap runs when the sleep completes, which changes nothing
    observed here, so its effect is applied at delivery. *)
Definition step (s : sup) (ev : event) : option sup :=
  match ev, pc s with
  | EvSpawn, AtSpawn =>
      let p := next_pid s in
      Some (mk_sup (Waiting p) (p :: alive s) (S p) (Some p) (watcher_up s) (term_sent s)
                   ((p, mk_config server_cmd (env s)) :: spawns s) (env s))
  | EvExit p code, pcs =>
      if existsb (Nat.eqb p) (alive s) then
        let s1 := mk_sup pcs (remove Nat.eq_dec p (alive s)) (next_pid s) (bun_pid s)
                         (watcher_up s) (term_sent s) (spawns s) (env s) in
        match pcs with
        | Waiting q =>
            if Nat.eqb q p
            then Some (with_pc s1 (continue_or_exit (or_true code) (Sleeping 2)))  (* lines 203-206 *)
            else Some s1
        | _ => Some s1
        end
      else None
  | EvSleepDone, Sleeping _ => Some (with_pc s AtSpawn)
  | EvSignal _, Exited _ => None
  | EvSignal sg, Waiting _ =>
      Some (with_pc (cleanup s) (continue_or_exit (or_true (128 + signo sg)) (Sleeping 2)))
  | EvSignal _, _ => Some (cleanup s)
  | EvDetectorKill, _ =>
      if watcher_up s then
        Some (mk_sup (pc s) (alive s) (next_pid s) (bun_pid s) (watcher_up s)
                     (alive s ++ term_sent s) (spawns s) (env s))
      else None
  | _, _ => None
  end.

Fixpoint run (s : sup) (evs : list event) : option sup :=
  match evs with
  | [] => Some s
  | ev :: evs' => match step s ev with Some s' => run s' evs' | None => None end
  end.

(** The state when the main loop is entered (after line 193). *)
Definition init_sup (e : list (string * string)) : sup :=
  mk_sup AtSpawn [] 1 None true [] [] e.

(** ** Port selection of [index.ts] (line 8) *)

(** A JavaScript number, as far as [parseInt] results go (exact integers;
    the rounding of values beyond 2^53 is not modelled). *)
Inductive number := NaN | Num (z : Z).

(** The ASCII members of StrWhiteSpaceChar and LineTerminator. *)
Definition js_ws (c : ascii) : bool :=
  let n := nat_of_ascii c in
  (Nat.eqb n 9 || Nat.eqb n 10 || Nat.eqb n 11 || Nat.eqb n 12 || Nat.eqb n 13 || Nat.eqb n 32)%bool.

Definition is_digit (c : ascii) : bool :=
  (Nat.leb 48 (nat_of_ascii c) && Nat.leb (nat_of_ascii c) 57)%bool.

Definition digits_value (ds : list ascii) : Z :=
  fold_left (fun acc c => acc * 10 + (Z.of_nat (nat_of_ascii c) - 48)) ds 0.

(** [parseInt(s, 10)]: skip leading white space, take one optional sign,
    then the longest run of decimal digits; none at all gives NaN. *)
Definition parseInt10 (s : string) : number :=
  let l := drop_while js_ws (list_ascii_of_string s) in
  let '(sign, l') :=
    match l with
    | c :: r => if Ascii.eqb c "-"%char then (-1, r)
                else if Ascii.eqb c "+"%char then (1, r) else (1, l)
    | [] => (1, l)
    end in
  match take_while is_digit l' with
  | [] => NaN
  | ds => Num (sign * digits_value ds)
  end.

(** [process.env.PORT || '8080']: an unset or empty variable is falsy. *)
Definition port_source (penv : string -> option string) : string :=
  match penv "PORT"%string with
  | Some v => if String.eqb v EmptyString then "8080"%string else v
  | None => "8080"%string
  end.

Definition port (penv : string -> option string) : number :=
  parseInt10 (port_source penv).

Example port_unset : port (fun _ => None) = Num 8080.
Proof. reflexivity. Qed.
Example port_3000 : port (fun _ => Some " 3000"%string) = Num 3000.
Proof. reflexivity. Qed.
Example port_partial : port (fun _ => Some "12ab"%string) = Num 12.
Proof. reflexivity. Qed.
Example port_nan : port (fun _ => Some "http"%string) = NaN.
Proof. reflexivity. Qed.

(** ** The request handlers of [index.ts] *)

(** [handleRequest] (lines 239-270) dispatches on [url.pathname] by exact
    string comparison, in this order; the method plays no part. *)
Inductive route :=
  | RHealth | RInfo | REcho | RTime | RRandomId | RValidate | RUtils | REncrypt | RRoot
  | RNotFound.   (* 404 [{ error: 'Not found' }] *)

Definition handleRequest (path : string) : route :=
  if String.eqb path "/health" then RHealth
  else if String.eqb path "/info" then RInfo
  else if String.eqb path "/echo" then REcho
  else if String.eqb path "/time" then RTime
  else if String.eqb path "/random-id" then RRandomId
  else if String.eqb path "/validate" then RValidate
  else if String.eqb path "/utils" then RUtils
  else if String.eqb path "/encrypt" then REncrypt
  else if String.eqb path "/" then RRoot
  else RNotFound.

Definition ROUTED_PATHS : list string :=
  ["/health"; "/info"; "/echo"; "/time"; "/random-id"; "/validate"; "/utils"; "/encrypt"; "/"]%string.

(** A value produced by [req.json()] ([JSON.parse]); a number is the double
    it parsed to, held exactly as the fraction [num / den]; strings are
    ASCII text, as elsewhere in this development. *)
#[warnings="-register-all"]
Inductive jvalue :=
  | JNull
  | JBool (b : bool)
  | JNumber (num : Z) (den : positive)
  | JString (s : string)
  | JArray (xs : list jvalue)
  | JObject (fields : list (string * jvalue)).

(** [JSON.parse] keeps the last of duplicated keys. *)
Fixpoint lookup_last (k : string) (fields : list (string * jvalue)) : option jvalue :=
  match fields with
  | [] => None
  | (k', v) :: rest =>
      match lookup_last k rest with
      | Some w => Some w
      | None => if String.eqb k k' then Some v else None
      end
  end.

(** A property read [v.k]: a [TypeError] on [null]; [undefined] when [v]
    has no own property [k] (the keys read below, [text] and [key], are
    defined by no prototype). *)
Inductive prop_read := TypeErr | Undefined | Val (v : jvalue).

Definition get_prop (v : jvalue) (k : string) : prop_read :=
  match v with
  | JNull => TypeErr
  | JObject fields => match lookup_last k fields with Some x => Val x | None => Undefined end
  | _ => Undefined
  end.

Definition truthy (v : jvalue) : bool :=
  match v with
  | JNull => false
  | JBool b => b
  | JNumber n _ => negb (Z.eqb n 0)
  | JString s => negb (String.eqb s EmptyString)
  | JArray _ | JObject _ => true
  end.

(** [x || d] on a property read. *)
Definition js_or_prop (r : prop_read) (d : jvalue) : jvalue :=
  match r with
  | Val v => if truthy v then v else d
  | _ => d
  end.

(** [encryptHandler] (lines 106-144).  [body]: [None] when [req.json()]
    rejects.  [EncOk t k]: status 200, [original: t] and the output of
    [CryptoJS.AES.encrypt(t, k)] (a fresh random salt each time).
    [EncLibrary]: [CryptoJS] is handed a value that is not a string; what
    it does then is not modelled. *)
Inductive encrypt_result :=
  | EncError (status : Z) (error : string)
  | EncOk (original key : string)
  | EncLibrary (text key : jvalue).

Definition encryptHandler (method : string) (body : option jvalue) : encrypt_result :=
  if negb (String.eqb method "POST") then EncError 405 "Method not allowed. Use POST."
  else
    match body with
    | None => EncError 400 "Invalid JSON"
    | Some b =>
        match get_prop b "text" with
        | TypeErr => EncError 400 "Invalid JSON"
        | rt =>
            let text := js_or_prop rt (JString EmptyString) in
            let key := js_or_prop (get_prop b "key") (JString "default-key") in
            match text, key with
            | JString t, JString k => EncOk t k
            | _, _ => EncLibrary text key
            end
        end
    end.

(** [validateHandler] (lines 185-236) with the schema
    [z.object({ email: z.string().email(), age: z.number().int().min(18).max(120) })].
    [email_ok] is the test of zod's [.email()] on a string.  [VValid]
    carries the parsed data, which keeps the two schema keys only. *)
Inductive validate_result :=
  | VMethodNotAllowed                              (* 405 *)
  | VInvalidJson                                   (* 400 [{ error: 'Invalid JSON' }] *)
  | VZodError                                      (* 400 [{ valid: false, errors }] *)
  | VValid (email : string) (age_num : Z) (age_den : positive).   (* 200 *)

Definition validate_status (r : validate_result) : Z :=
  match r with VMethodNotAllowed => 405 | VValid _ _ _ => 200 | _ => 400 end.

(** [.int().min(18).max(120)] on the number [n / d]. *)
Definition zod_age_ok (n : Z) (d : positive) : bool :=
  (Z.eqb (Z.modulo n (Zpos d)) 0 && Z.leb (18 * Zpos d) n && Z.leb n (120 * Zpos d))%bool.

Definition validateHandler (email_ok : string -> bool) (method : string) (body : option jvalue)
  : validate_result :=
  if negb (String.eqb method "POST") then VMethodNotAllowed
  else
    match body with
    | None => VInvalidJson
    | Some (JObject fields) =>
        match lookup_last "email" fields, lookup_last "age" fields with
        | Some (JString e), Some (JNumber n d) =>
            if (email_ok e && zod_age_ok n d)%bool then VValid e n d else VZodError
        | _, _ => VZodError
        end
    | Some _ => VZodError
    end.

(** [url.searchParams.get(k) || d]: [get] gives [null] for a missing key. *)
Definition js_or (v : option string) (d : string) : string :=
  match v with
  | Some s => if String.eqb s EmptyString then d else s
  | None => d
  end.

(** [input.split(',')]. *)
Fixpoint split_on (sep : ascii) (cur : list ascii) (l : list ascii) : list (list ascii) :=
  match l with
  | [] => [rev cur]
  | c :: l' => if Ascii.eqb c sep then rev cur :: split_on sep [] l' else split_on sep (c :: cur) l'
  end.

(** [s.trim()]. *)
Definition js_trim (l : list ascii) : list ascii :=
  rev (drop_while js_ws (rev (drop_while js_ws l))).

(** [input.split(',').map(s => s.trim())] (line 152). *)
Definition utils_arr (input : string) : list string :=
  map (fun p => string_of_list_ascii (js_trim p)) (split_on "," [] (list_ascii_of_string input)).

(** lodash 4 [_.uniq]: first occurrences, in order (SameValueZero, which
    on strings is equality). *)
Fixpoint uniq_seen (seen : list string) (l : list string) : list string :=
  match l with
  | [] => []
  | x :: l' => if existsb (String.eqb x) seen then uniq_seen seen l' else x :: uniq_seen (x :: seen) l'
  end.

Definition lodash_uniq (l : list string) : list string := uniq_seen [] l.

(** lodash 4 [_.chunk(array, size)]: [size = max(toInteger(size), 0)]
    ([toInteger(NaN)] is 0); [[]] for an empty array or a size below 1;
    otherwise slices [[i, i + size)] from 0 while [i < length]. *)
Fixpoint chunks_of (fuel : nat) (k : nat) (l : list string) : list (list string) :=
  match fuel with
  | O => []
  | S f => match l with [] => [] | _ => firstn k l :: chunks_of f k (skipn k l) end
  end.

Definition lodash_chunk (l : list string) (size : number) : list (list string) :=
  let sz := match size with NaN => 0 | Num z => Z.max z 0 end in
  if (Nat.eqb (List.length l) 0 || Z.ltb sz 1)%bool then []
  else chunks_of (List.length l) (Z.to_nat sz) l.

(** [utilsHandler] (lines 147-182): the [action], the parsed [input] and
    the [result]; [UShuffle arr] stands for [_.shuffle(arr)], a random
    permutation. *)
Inductive utils_result :=
  | UShuffle (arr : list string)
  | UChunks (chunks : list (list string))
  | UList (l : list string).

Record utils_out := mk_utils { u_action : string; u_input : list string; u_result : utils_result }.

Definition utilsHandler (param : string -> option string) : utils_out :=
  let action := js_or (param "action"%string) "shuffle" in
  let input := js_or (param "input"%string) "1,2,3,4,5" in
  let arr := utils_arr input in
  let result :=
    if String.eqb action "shuffle" then UShuffle arr
    else if String.eqb action "chunk" then
      UChunks (lodash_chunk arr (parseInt10 (js_or (param "size"%string) "2")))
    else if String.eqb action "unique" then UList (lodash_uniq arr)
    else UList arr in
  mk_utils action arr result.

Example utils_default : utilsHandler (fun _ => None) =
  mk_utils "shuffle" ["1"; "2"; "3"; "4"; "5"]%string (UShuffle ["1"; "2"; "3"; "4"; "5"]%string).
Proof. reflexivity. Qed.

Example utils_chunk_sample :
  u_result (utilsHandler (fun k => if String.eqb k "action" then Some "chunk"%string
                                  else if String.eqb k "input" then Some "a, b,c , d,e"%string
                                  else None)) =
  UChunks [["a"; "b"]; ["c"; "d"]; ["e"]]%string.
Proof. reflexivity. Qed.

Example utils_unique_sample :
  u_result (utilsHandler (fun k => if String.eqb k "action" then Some "unique"%string
                                  else if String.eqb k "input" then Some "b,a, b,,a,"%string
                                  else None)) =
  UList ["b"; "a"; EmptyString]%string.
Proof. reflexivity. Qed.

Example encrypt_null_body : encryptHandler "POST" (Some JNull) = EncError 400 "Invalid JSON".
Proof. reflexivity. Qed.

Definition utils_params (action input size : option string) (k : string) : option string :=
  if String.eqb k "action" then action
  else if String.eqb k "input" then input
  else if String.eqb k "size" then size
  else None.

(** Lists of characters joined with a separator. *)
Fixpoint join_with (sep : ascii) (parts : list (list ascii)) : list ascii :=
  match parts with
  | [] => []
  | [x] => x
  | x :: rest => x ++ sep :: join_with sep rest
  end.

(** Classifiers used to count actions and events. *)
Definition is_install (a : action) : bool := match a with Install => true | _ => false end.

Definition at_spawn (p : main_pc) : nat := match p with AtSpawn => 1 | _ => 0 end.

Definition is_sleep_done (ev : event) : bool := match ev with EvSleepDone => true | _ => false end.

(** ** Helper lemmas *)

Definition startup_checks (o : startup_obs) : bool :=
  (cd_ok o && (bun_on_path o || curl_install_ok o) && (bun_on_path o || bun_after_install o)
   && pkg_present_final o)%bool.

(** Line 121 leaves a store behind: the pipeline and its redirection
    succeed, or the fallback write does. *)
Definition line121_ok (d : fs) (hw zw : bool) : bool :=
  ((hw && Z.eqb (status (fingerprint_pipeline hash_files d)) 0) || zw)%bool.

(** The writes after the checks succeed: the [touch] of line 119 when it
    runs, and line 121. *)
Definition startup_writes_ok (o : startup_obs) : bool :=
  ((Z.eqb (install_status o) 0 || touch_ok o)
   && line121_ok (hash_dir o) (hash_write_ok o) (zero_write_ok o))%bool.

Definition is_signal (ev : event) : bool :=
  match ev with EvSignal _ => true | _ => false end.

Definition is_exited (p : main_pc) : bool :=
  match p with Exited _ => true | _ => false end.

Section StringFacts.

Lemma list_ascii_append (s1 s2 : string) :
  list_ascii_of_string (s1 ++ s2) = list_ascii_of_string s1 ++ list_ascii_of_string s2.
Proof. induction s1 as [|c s1 IH]; simpl; [reflexivity | now rewrite IH]. Qed.

Lemma string_length_list (s : string) : String.length s = List.length (list_ascii_of_string s).
Proof. induction s as [|c s IH]; simpl; [reflexivity | now rewrite IH]. Qed.

Lemma hex_digit_not_blank (d : Z) : is_blank (Sha256.hex_digit d) = false.
Proof.
  unfold Sha256.hex_digit. generalize (Z.to_nat d) as n. intro n.
  do 16 (destruct n as [|n]; [reflexivity|]). reflexivity.
Qed.

Definition not_blank (c : ascii) : Prop := is_blank c = false.

Lemma hexn_shape (n : nat) (w : Z) :
  List.length (list_ascii_of_string (Sha256.hexn n w)) = n /\
  Forall not_blank (list_ascii_of_string (Sha256.hexn n w)).
Proof.
  revert w. induction n as [|n IH]; intro w; simpl.
  - split; [reflexivity | constructor].
  - destruct (IH (Z.shiftr w 4)) as [Hl Hf].
    rewrite list_ascii_append, length_app, Hl. simpl. split; [lia|].
    apply Forall_app. split; [exact Hf|]. constructor; [apply hex_digit_not_blank | constructor].
Qed.

Lemma hex_shape (st : Sha256.state) :
  List.length (list_ascii_of_string (Sha256.hex st)) = 64%nat /\
  Forall not_blank (list_ascii_of_string (Sha256.hex st)).
Proof.
  destruct st as [a b c d e f g h]. unfold Sha256.hex.
  cbn [Sha256.va Sha256.vb Sha256.vc Sha256.vd Sha256.ve Sha256.vf Sha256.vg Sha256.vh].
  rewrite !list_ascii_append, !length_app, !Forall_app.
  destruct (hexn_shape 8 a) as [La Fa]; destruct (hexn_shape 8 b) as [Lb Fb];
  destruct (hexn_shape 8 c) as [Lc Fc]; destruct (hexn_shape 8 d) as [Ld Fd];
  destruct (hexn_shape 8 e) as [Le Fe]; destruct (hexn_shape 8 f) as [Lf Ff];
  destruct (hexn_shape 8 g) as [Lg Fg]; destruct (hexn_shape 8 h) as [Lh Fh].
  rewrite La, Lb, Lc, Ld, Le, Lf, Lg, Lh. tauto.
Qed.

Lemma sha256_hex_shape (s : string) :
  List.length (list_ascii_of_string (Sha256.sha256_hex s)) = 64%nat /\
  Forall not_blank (list_ascii_of_string (Sha256.sha256_hex s)).
Proof. apply hex_shape. Qed.

Lemma not_blank_not_nl (c : ascii) : not_blank c -> is_nl c = false.
Proof.
  unfold not_blank, is_blank, is_nl. intro H.
  apply orb_false_iff in H as [_ H]. exact H.
Qed.

Lemma split_lines_app (cur l rest : list ascii) :
  Forall (fun c => is_nl c = false) l ->
  split_lines cur (l ++ nl :: rest) = (rev cur ++ l) :: split_lines [] rest.
Proof.
  revert cur. induction l as [|c l IH]; intros cur Hl; simpl.
  - rewrite app_nil_r. reflexivity.
  - inversion Hl as [|? ? Hc Hl']; subst. rewrite Hc, IH by exact Hl'.
    simpl. now rewrite <- app_assoc.
Qed.

Lemma take_while_app_stop (p : ascii -> bool) (l r : list ascii) (c : ascii) :
  Forall (fun x => p x = true) l -> p c = false -> take_while p (l ++ c :: r) = l.
Proof.
  induction l as [|x l IH]; intros Hl Hc; simpl.
  - now rewrite Hc.
  - inversion Hl; subst. rewrite H1. now rewrite IH.
Qed.

Lemma drop_while_rev_stop (l : list ascii) :
  Forall (fun c => is_nl c = false) l -> drop_while is_nl (rev l) = rev l.
Proof.
  intro Hl. destruct (rev l) as [|c r] eqn:E; [reflexivity|]. simpl.
  assert (Hin : In c l) by (apply in_rev; rewrite E; left; reflexivity).
  rewrite Forall_forall in Hl. now rewrite (Hl c Hin).
Qed.

(** [echo "$v" > f] then [$(cat f)] gives [v] back when [v] has no
    newline. *)
Lemma strip_nl_echo (v : string) :
  Forall (fun c => is_nl c = false) (list_ascii_of_string v) -> strip_nl (v ++ NL) = v.
Proof.
  intro Hv. unfold strip_nl. rewrite list_ascii_append. simpl.
  rewrite rev_app_distr. simpl. rewrite drop_while_rev_stop by exact Hv.
  rewrite rev_involutive. apply string_of_list_ascii_of_string.
Qed.

End StringFacts.


(** [sha256sum | awk '{print $1}'] inside [$(...)] yields the digest. *)
Lemma awk_strip_digest (h : string) :
  (0 < List.length (list_ascii_of_string h))%nat ->
  Forall not_blank (list_ascii_of_string h) ->
  strip_nl (awk_print1 (h ++ "  -" ++ NL)) = h.
Proof.
  intros Hlen Hnb.
  assert (Hnl : Forall (fun c => is_nl c = false) (list_ascii_of_string h))
    by (eapply Forall_impl; [exact not_blank_not_nl | exact Hnb]).
  unfold awk_print1. rewrite !list_ascii_append.
  change (list_ascii_of_string "  -" ++ list_ascii_of_string NL)
    with ([" "; " "; "-"]%char ++ [nl]).
  rewrite app_assoc, split_lines_app.
  2:{ apply Forall_app. split; [exact Hnl|]. repeat constructor. }
  cbn [split_lines rev app map concat].
  rewrite app_nil_r.
  destruct (list_ascii_of_string h) as [|c0 l0] eqn:Eh; [simpl in Hlen; lia|].
  inversion Hnb as [|? ? Hc0 Hl0]; subst.
  cbn [drop_while app]. unfold not_blank in Hc0. rewrite Hc0.
  change (c0 :: l0 ++ [" "; " "; "-"]%char) with ((c0 :: l0) ++ " "%char :: [" "; "-"]%char).
  rewrite take_while_app_stop.
  2:{ eapply Forall_impl; [|exact Hnb]. intros x Hx; unfold not_blank in Hx; now rewrite Hx. }
  2:{ reflexivity. }
  rewrite <- Eh.
  replace (string_of_list_ascii (list_ascii_of_string h ++ [nl])) with (h ++ NL)%string.
  - apply strip_nl_echo. now rewrite Eh.
  - rewrite <- (string_of_list_ascii_of_string (h ++ NL)), list_ascii_append. reflexivity.
Qed.

(** The watcher's [current] is exactly the digest of the listing. *)
Lemma fingerprint_out (d : fs) :
  out (fingerprint d) = Sha256.sha256_hex (out (watcher_hash_files d)).
Proof.
  unfold fingerprint, fingerprint_pipeline, sha256sum_stdin. cbn [out].
  destruct (sha256_hex_shape (out (watcher_hash_files d))) as [Hlen Hnb].
  apply awk_strip_digest; [rewrite Hlen; lia | exact Hnb].
Qed.

Lemma fingerprint_shape (d : fs) :
  List.length (list_ascii_of_string (out (fingerprint d))) = 64%nat /\
  Forall (fun c => is_nl c = false) (list_ascii_of_string (out (fingerprint d))).
Proof.
  rewrite fingerprint_out. destruct (sha256_hex_shape (out (watcher_hash_files d))) as [Hl Hf].
  split; [exact Hl|]. eapply Forall_impl; [exact not_blank_not_nl | exact Hf].
Qed.


Lemma read_previous_echo (d : fs) :
  read_previous (Some (out (fingerprint d) ++ NL)%string) = out (fingerprint d).
Proof. apply strip_nl_echo, fingerprint_shape. Qed.

Lemma startup_hash_write_none (d : fs) (hw zw : bool) :
  startup_hash_write d hw zw = None <-> line121_ok d hw zw = false.
Proof.
  unfold startup_hash_write, line121_ok. cbv zeta.
  destruct hw, (Z.eqb (status (fingerprint_pipeline hash_files d)) 0), zw; cbn [andb orb];
    split; intro H; first [reflexivity | discriminate H].
Qed.


(** Sample inputs. *)
Definition stale : store := Some ("stale" ++ NL)%string.
Definition lock_missing : fs := dir_of (Regular pkg_v1) Absent.
Definition lock_unreadable : fs := dir_of (Regular pkg_v1) Unreadable.
Definition pkg_missing : fs := dir_of Absent (Regular lock_v1).


Definition obs_never_pkg : startup_obs :=
  mk_obs true true true true (fun _ => false) false 0 both_present None true true true.

(** * Claims *)

(** ** C1 *)




(** ** C2 *)

(** C2 (code bug): the guard [-n] of line 164 tests the output of
    [hash_files | sha256sum | awk], which is always 64 hex digits, never
    empty: with every file absent it is the digest of empty input.  The
    skip branch of line 176 is dead code, and a tick whose fingerprint
    computation succeeds and differs from the store runs [bun install].
    With every file absent the pipeline fails instead and the tick ends
    the watcher. *)
Theorem fingerprint_never_empty :
  forall (d : fs) (s : store) (inst : Z) (w : write_result),
  String.length (out (fingerprint d)) = 64%nat /\
  out (fingerprint all_absent) =
    "e3b0c44298fc1c149afbf4c8996fb92427ae41e4649b934ca495991b7852b855"%string /\
  (status (fingerprint d) = 0 -> out (fingerprint d) <> read_previous s ->
   In Install (t_actions (tick d s inst w))) /\
  t_actions (tick all_absent s inst w) = [] /\ t_exit (tick all_absent s inst w) = Some 1.
Proof.
  intros d s inst w. split; [|split; [|split]].
  - rewrite string_length_list. apply fingerprint_shape.
  - vm_compute. reflexivity.
  - intros Hst Hdiff. unfold tick. cbv zeta. rewrite Hst. cbn [Z.eqb negb].
    rewrite (proj2 (String.eqb_neq _ _) Hdiff). cbn [negb].
    assert (Hne : String.eqb (out (fingerprint d)) EmptyString = false).
    { apply String.eqb_neq. intro E. destruct (fingerprint_shape d) as [L _].
      rewrite E in L. discriminate L. }
    rewrite Hne. cbn [negb].
    destruct (inst =? 0); [destruct w|]; cbn [negb t_actions]; left; reflexivity.
  - unfold tick. cbv zeta.
    replace (status (fingerprint all_absent)) with 1 by (vm_compute; reflexivity).
    cbn [Z.eqb negb t_actions t_exit]. split; reflexivity.
Qed.

Lemma fingerprint_never_empty_witness :
  (status (fingerprint both_present) = 0 /\
   out (fingerprint both_present) <> read_previous stale) /\
  In Install (t_actions (tick both_present stale 0 WriteOk)).
Proof.
  split; [split; [vm_compute; reflexivity | intro H; vm_compute in H; discriminate H]|].
  destruct (fingerprint_never_empty both_present stale 0 WriteOk) as [_ [_ [H _]]].
  apply H; [vm_compute; reflexivity | intro E; vm_compute in E; discriminate E].
Defined.

(** ** C3 *)

(** C3 (code bug): a failing [bun install] on a drift tick ends the watcher
    (errexit at line 169); the next tick never runs, so nothing is retried. *)
Lemma watcher_stops_after_failed_install :
  run_ticks stale [(both_present, 1, WriteOk); (both_present, 0, WriteOk)] = ([Install], stale, Some 1).
Proof. vm_compute. reflexivity. Qed.

(** ** C7 *)

(** C7 (code bug): when the last watched file ([bun.lockb]) is missing or
    unreadable, [hash_files] returns 1, the pipeline fails under pipefail and
    the assignment ends the watcher under errexit, at its start and on any
    tick; a missing [package.json] alone is skipped as intended. *)
Lemma missing_lockfile_ends_watcher :
  status (fingerprint lock_missing) = 1 /\
  watcher_start lock_missing = Some 1 /\
  t_exit (tick lock_missing stale 0 WriteOk) = Some 1 /\
  status (fingerprint lock_unreadable) = 1 /\
  t_exit (tick lock_unreadable stale 0 WriteOk) = Some 1 /\
  status (fingerprint pkg_missing) = 0.
Proof. vm_compute. repeat split; reflexivity. Qed.

(** ** C8 *)

(** C8: when the files a tick observes are those the previous tick
    observed, and the previous tick did not end the watcher, the tick takes
    no action, leaves the store and keeps the watcher running. *)
Theorem no_drift_tick_is_noop :
  forall (d : fs) (s s1 : store) (inst1 inst2 : Z) (w1 w2 : write_result),
  t_exit (tick d s inst1 w1) = None ->
  t_store (tick d s inst1 w1) = s1 ->
  t_actions (tick d s1 inst2 w2) = [] /\ t_store (tick d s1 inst2 w2) = s1 /\
  t_exit (tick d s1 inst2 w2) = None.
Proof.
  intros d s s1 inst1 inst2 w1 w2 Hrun Hs1.
  unfold tick in *. cbv zeta in *.
  destruct (status (fingerprint d) =? 0) eqn:Es; cbn [negb t_exit t_store t_actions] in *; [|discriminate].
  destruct (String.eqb (out (fingerprint d)) (read_previous s)) eqn:Ed; cbn [negb t_exit t_store t_actions] in *.
  - subst s1. rewrite Ed. cbn [negb t_exit t_store t_actions]. auto.
  - destruct (String.eqb (out (fingerprint d)) EmptyString) eqn:Ee; cbn [negb t_exit t_store t_actions] in *.
    + subst s1. rewrite Ed. cbn [negb]. try rewrite Ee. cbn [negb t_exit t_store t_actions]. auto.
    + destruct (inst1 =? 0); cbn [negb t_exit t_store t_actions] in *; [|discriminate].
      destruct w1 as [|kept]; cbn [t_exit t_store] in *; [|discriminate].
      subst s1. rewrite read_previous_echo, String.eqb_refl. cbn [negb t_exit t_store t_actions]. auto.
Qed.

Lemma no_drift_tick_is_noop_witness :
  (t_exit (tick both_present stale 0 WriteOk) = None /\
   t_store (tick both_present stale 0 WriteOk) = Some (out (fingerprint both_present) ++ NL)%string) /\
  t_actions (tick both_present (Some (out (fingerprint both_present) ++ NL)%string) 1 WriteOk) = [].
Proof.
  split; [split; vm_compute; reflexivity|].
  apply (no_drift_tick_is_noop both_present stale _ 0 1 WriteOk WriteOk); vm_compute; reflexivity.
Defined.

(** ** The supervisor: reachable-state facts *)

Definition sup_inv (e : list (string * string)) (s : sup) : Prop :=
  env s = e /\
  Forall (fun x => snd x = mk_config server_cmd e) (spawns s) /\
  (forall p, pc s = Waiting p -> In p (alive s) /\ In p (map fst (spawns s))).

Lemma sup_inv_init (e : list (string * string)) : sup_inv e (init_sup e).
Proof. repeat split; [constructor | discriminate | discriminate]. Qed.

Ltac inv_easy :=
  match goal with
  | He : ?en = ?e, Hsp : Forall _ ?sp, Hw : forall p, _ -> _ |- _ =>
      split; [exact He | split; [exact Hsp | intros ? Hc; first [discriminate Hc | exact (Hw _ Hc)]]]
  end.

Lemma sup_inv_step (e : list (string * string)) (s s' : sup) (ev : event) :
  sup_inv e s -> step s ev = Some s' -> sup_inv e s'.
Proof.
  intros [He [Hsp Hw]] Hst.
  destruct s as [pc0 al np bp wu ts sp en]; cbn [env spawns pc alive] in *.
  destruct ev as [|p code| |sg|]; destruct pc0 as [|q|d|c]; cbn in Hst;
    try discriminate.
  - (* spawn *)
    injection Hst as <-. subst en. split; [reflexivity|split]; cbn.
    + constructor; [reflexivity | exact Hsp].
    + intros p' Hp'; injection Hp' as <-; split; left; reflexivity.
  - (* exit while at the top of the loop *)
    destruct (existsb (Nat.eqb p) al); [|discriminate].
    injection Hst as <-. inv_easy.
  - (* exit while waiting *)
    destruct (existsb (Nat.eqb p) al); [|discriminate].
    destruct (Nat.eqb q p) eqn:Eqp.
    + injection Hst as <-. inv_easy.
    + injection Hst as <-. split; [exact He | split; [exact Hsp|]].
      intros p' Hp'. injection Hp' as <-. destruct (Hw q eq_refl) as [H1 H2].
      split; [|exact H2]. apply in_in_remove; [|exact H1].
      intro E. subst. rewrite Nat.eqb_refl in Eqp. discriminate.
  - destruct (existsb (Nat.eqb p) al); [|discriminate]. injection Hst as <-. inv_easy.
  - destruct (existsb (Nat.eqb p) al); [|discriminate]. injection Hst as <-. inv_easy.
  - injection Hst as <-. inv_easy.
  - injection Hst as <-. inv_easy.
  - injection Hst as <-. inv_easy.
  - injection Hst as <-. inv_easy.
  - destruct wu; [|discriminate]. injection Hst as <-. inv_easy.
  - destruct wu; [|discriminate]. injection Hst as <-. inv_easy.
  - destruct wu; [|discriminate]. injection Hst as <-. inv_easy.
  - destruct wu; [|discriminate]. injection Hst as <-. inv_easy.
Qed.

Lemma sup_inv_run (e : list (string * string)) (evs : list event) (s s' : sup) :
  sup_inv e s -> run s evs = Some s' -> sup_inv e s'.
Proof.
  revert s. induction evs as [|ev evs IH]; intros s Hi Hr; cbn in Hr.
  - now injection Hr as <-.
  - destruct (step s ev) as [s1|] eqn:E; [|discriminate].
    exact (IH s1 (sup_inv_step e s s1 ev Hi E) Hr).
Qed.

(** No step moves the main loop to an exit. *)
Lemma step_not_exited (s s' : sup) (ev : event) :
  is_exited (pc s) = false -> step s ev = Some s' -> is_exited (pc s') = false.
Proof.
  intros Hx Hst. destruct s as [pc0 al np bp wu ts sp en]; cbn [pc] in Hx.
  destruct ev as [|p code| |sg|]; destruct pc0 as [|q|d|c]; cbn in Hst, Hx;
    try discriminate.
  all: repeat match type of Hst with
         | context [if ?b then _ else _] => destruct b
         end; try discriminate; injection Hst as <-; reflexivity.
Qed.

Lemma run_not_exited (evs : list event) (s s' : sup) :
  is_exited (pc s) = false -> run s evs = Some s' -> is_exited (pc s') = false.
Proof.
  revert s. induction evs as [|ev evs IH]; intros s Hx Hr; cbn in Hr.
  - now injection Hr as <-.
  - destruct (step s ev) as [s1|] eqn:E; [|discriminate].
    exact (IH s1 (step_not_exited s s1 ev Hx E) Hr).
Qed.

(** Without termination signals at most one server is alive: the main
    loop only spawns after it has observed the previous server's exit. *)
Definition single_inv (s : sup) : Prop :=
  match pc s with
  | Waiting p => alive s = [p]
  | AtSpawn | Sleeping _ => alive s = []
  | Exited _ => True
  end.

Lemma single_inv_step (s s' : sup) (ev : event) :
  is_signal ev = false -> single_inv s -> step s ev = Some s' -> single_inv s'.
Proof.
  intros Hsig Hi Hst. destruct s as [pc0 al np bp wu ts sp en]; unfold single_inv in *; cbn [pc alive] in Hi.
  destruct ev as [|p code| |sg|]; destruct pc0 as [|q|d|c]; cbn in Hst, Hsig;
    try discriminate; subst; cbn in Hst;
    repeat match type of Hst with context [if ?b then _ else _] => destruct b eqn:? end;
    try discriminate; injection Hst as <-; cbn; try reflexivity; try exact I.
  all: repeat match goal with
         | H : _ || false = true |- _ => rewrite orb_false_r in H
         | H : Nat.eqb _ _ = true |- _ => apply Nat.eqb_eq in H
         | H : Nat.eqb _ _ = false |- _ => apply Nat.eqb_neq in H
         end; subst; congruence.
Qed.

Lemma single_server_without_signals (e : list (string * string)) (evs : list event) (s : sup) :
  forallb (fun ev => negb (is_signal ev)) evs = true ->
  run (init_sup e) evs = Some s -> (List.length (alive s) <= 1)%nat.
Proof.
  intros Hns Hr.
  assert (H : forall s0, single_inv s0 -> run s0 evs = Some s -> single_inv s).
  { clear Hr. induction evs as [|ev evs IH]; intros s0 Hi Hr; cbn in Hr, Hns.
    - now injection Hr as <-.
    - apply andb_prop in Hns as [Hev Hns]. apply negb_true_iff in Hev.
      destruct (step s0 ev) as [s1|] eqn:E; [|discriminate].
      exact (IH Hns s1 (single_inv_step s0 s1 ev Hev Hi E) Hr). }
  specialize (H (init_sup e) eq_refl Hr).
  assert (Hx : is_exited (pc s) = false) by exact (run_not_exited evs (init_sup e) s eq_refl Hr).
  unfold single_inv in H. destruct (pc s); cbn in Hx; try discriminate; rewrite H; cbn; lia.
Qed.

Lemma wait_loop_sleeps (n i : nat) (present : nat -> bool) :
  Forall (fun t => t = 2) (wait_loop n i present) /\ (List.length (wait_loop n i present) <= n)%nat.
Proof.
  revert i. induction n as [|n IH]; intro i; cbn; [split; [constructor | lia]|].
  destruct (present i); cbn; [split; [constructor | lia]|].
  destruct (IH (S i)) as [Hf Hl]. split; [constructor; [reflexivity | exact Hf] | lia].
Qed.

(** ** C4 *)

(** C4 (code bug): TERM delivered while a server runs.  [cleanup] stops the
    watcher and signals the server, then returns; the interrupted [wait] is
    absorbed by [|| true], and after [sleep 2] the loop spawns server 2. *)
Lemma sigterm_then_respawn :
  match run (init_sup []) [EvSpawn; EvSignal SIGTERM; EvSleepDone; EvSpawn] with
  | Some s => watcher_up s = false /\ term_sent s = [1%nat] /\ pc s = Waiting 2 /\
              map fst (spawns s) = [2%nat; 1%nat]
  | None => False
  end.
Proof. vm_compute. repeat split. Qed.

(** ** C5 *)

(** C5 (code bug): the same signal path spawns server 2 while server 1,
    signalled but not yet exited, is alive: two servers, and no exit of
    server 1 was ever observed. *)
Lemma two_servers_after_signal :
  match run (init_sup []) [EvSpawn; EvSignal SIGINT; EvSleepDone; EvSpawn] with
  | Some s => alive s = [2%nat; 1%nat]
  | None => False
  end.
Proof. vm_compute. reflexivity. Qed.

(** ** C6 *)

(** C6: in every reachable state where the loop waits on server [p], an
    exit of [p] with any status leads to [sleep 2]; while it sleeps no
    event but its end moves the loop on; after it, the loop spawns the next
    server with the command and environment that [p] had. *)
Theorem restart_after_any_exit :
  forall (e : list (string * string)) (evs : list event) (s : sup) (p : nat) (code : Z),
  run (init_sup e) evs = Some s -> pc s = Waiting p ->
  exists s1 s2 s3,
    step s (EvExit p code) = Some s1 /\ pc s1 = Sleeping 2 /\
    (forall ev s', step s1 ev = Some s' ->
       pc s' = Sleeping 2 \/ (ev = EvSleepDone /\ pc s' = AtSpawn)) /\
    step s1 EvSleepDone = Some s2 /\ step s2 EvSpawn = Some s3 /\
    spawns s3 = (next_pid s, mk_config server_cmd e) :: spawns s /\
    In (p, mk_config server_cmd e) (spawns s).
Proof.
  intros e evs s p code Hr Hw.
  destruct (sup_inv_run e evs _ _ (sup_inv_init e) Hr) as [He [Hsp Hwait]].
  destruct (Hwait p Hw) as [Hal Hfst].
  assert (Hcfg : In (p, mk_config server_cmd e) (spawns s)).
  { apply in_map_iff in Hfst as [[p' c] [Ep Hin]]. cbn in Ep. subst p'.
    rewrite Forall_forall in Hsp. specialize (Hsp _ Hin). cbn in Hsp. now subst c. }
  destruct s as [pc0 al np bp wu ts sp en]; cbn [pc alive env spawns next_pid] in *. subst pc0 en.
  assert (Hex : existsb (Nat.eqb p) al = true)
    by (apply existsb_exists; exists p; split; [exact Hal | apply Nat.eqb_refl]).
  eexists; eexists; eexists. cbn. rewrite Hex, Nat.eqb_refl. cbn.
  split; [reflexivity|]. split; [reflexivity|]. split.
  - intros ev s' Hst. destruct ev; cbn in Hst;
      repeat match type of Hst with context [if ?b then _ else _] => destruct b end;
      try discriminate; injection Hst as <-;
      first [left; reflexivity | right; split; reflexivity].
  - split; [reflexivity|]. split; [reflexivity|]. split; [reflexivity | exact Hcfg].
Qed.

Definition sup_after_first_spawn : sup :=
  mk_sup (Waiting 1) [1%nat] 2 (Some 1%nat) true [] [(1%nat, mk_config server_cmd [])] [].

Lemma restart_after_any_exit_witness :
  (run (init_sup []) [EvSpawn] = Some sup_after_first_spawn /\
   pc sup_after_first_spawn = Waiting 1) /\
  exists s1 s2 s3,
    step sup_after_first_spawn (EvExit 1 137) = Some s1 /\ pc s1 = Sleeping 2 /\
    (forall ev s', step s1 ev = Some s' ->
       pc s' = Sleeping 2 \/ (ev = EvSleepDone /\ pc s' = AtSpawn)) /\
    step s1 EvSleepDone = Some s2 /\ step s2 EvSpawn = Some s3 /\
    spawns s3 = (next_pid sup_after_first_spawn, mk_config server_cmd []) :: spawns sup_after_first_spawn /\
    In (1%nat, mk_config server_cmd []) (spawns sup_after_first_spawn).
Proof.
  split; [split; reflexivity|].
  exact (restart_after_any_exit [] [EvSpawn] sup_after_first_spawn 1 137 eq_refl eq_refl).
Defined.

(** ** C9 *)

(** C9 (counterexample): when [package.json] never appears the supervisor
    exits 1, but the retries are spaced by a constant 2, with no backoff:
    no later delay exceeds an earlier one. *)
Lemma startup_wait_has_no_backoff :
  s_outcome (startup obs_never_pkg) = StartupExit 1 /\
  s_sleeps (startup obs_never_pkg) = repeat 2 30 /\
  ~ (exists i j, (i < j < 30)%nat /\
       nth i (s_sleeps (startup obs_never_pkg)) 0 < nth j (s_sleeps (startup obs_never_pkg)) 0).
Proof.
  assert (Hs : s_sleeps (startup obs_never_pkg) = repeat 2 30) by (vm_compute; reflexivity).
  split; [vm_compute; reflexivity|]. split; [exact Hs|].
  intros [i [j [Hij Hlt]]]. rewrite Hs in Hlt.
  assert (Hk : forall k, (k < 30)%nat -> nth k (repeat 2 30) 0 = 2).
  { intros k Hk. apply (repeat_spec 30). apply nth_In. rewrite repeat_length. exact Hk. }
  rewrite (Hk i), (Hk j) in Hlt by lia. lia.
Qed.

(** C9 (amended): the startup exits, always with status 1, exactly when one
    of its checks fails (workspace, Bun, [package.json] at the final check)
    or, after them, a write fails: the [touch] of line 119 after a failed
    [bun install], or both writes of line 121.  Its wait for
    [package.json] sleeps a fixed 2 between at most 30 checks; and no run
    of the main loop without termination signals exits. *)
Theorem startup_exit_conditions :
  forall (o : startup_obs) (e : list (string * string)) (evs : list event) (s : sup),
  forallb (fun ev => negb (is_signal ev)) evs = true ->
  run (init_sup e) evs = Some s ->
  (s_outcome (startup o) = StartupExit 1 <-> (startup_checks o && startup_writes_ok o)%bool = false) /\
  (forall c, s_outcome (startup o) = StartupExit c -> c = 1) /\
  Forall (fun t => t = 2) (s_sleeps (startup o)) /\
  (List.length (s_sleeps (startup o)) <= 30)%nat /\
  is_exited (pc s) = false.
Proof.
  intros o e evs s _ Hr.
  assert (Hw := wait_loop_sleeps 30 1 (pkg_present o)).
  assert (Hx := run_not_exited evs (init_sup e) s eq_refl Hr).
  assert (HN := startup_hash_write_none (hash_dir o) (hash_write_ok o) (zero_write_ok o)).
  unfold startup_checks, startup_writes_ok, startup.
  destruct (startup_hash_write (hash_dir o) (hash_write_ok o) (zero_write_ok o)) as [st0|] eqn:E;
  destruct (line121_ok (hash_dir o) (hash_write_ok o) (zero_write_ok o)) eqn:L;
  try rewrite E in HN; try rewrite L in HN;
  try (exfalso; destruct HN as [HN1 HN2];
       first [pose proof (HN1 eq_refl) as C | pose proof (HN2 eq_refl) as C]; discriminate C);
  destruct (cd_ok o), (bun_on_path o), (curl_install_ok o), (bun_after_install o),
           (pkg_present_final o), (Z.eqb (install_status o) 0), (touch_ok o);
    cbn [negb andb orb s_outcome s_sleeps];
    unfold wait_sleeps;
    (split; [split; intro H; first [reflexivity | discriminate H]|]);
    (split; [intros c H; first [discriminate H | injection H as <-; reflexivity]|]);
    (split; [first [constructor | apply Hw]|]);
    (split; [first [cbn; lia | apply Hw]|]);
    exact Hx.
Qed.

Lemma startup_exit_conditions_witness :
  (forallb (fun ev => negb (is_signal ev)) [EvSpawn] = true /\
   run (init_sup []) [EvSpawn] = Some sup_after_first_spawn) /\
  s_outcome (startup obs_never_pkg) = StartupExit 1 /\ is_exited (pc sup_after_first_spawn) = false.
Proof.
  split; [split; reflexivity|].
  destruct (startup_exit_conditions obs_never_pkg [] [EvSpawn] sup_after_first_spawn eq_refl eq_refl)
    as [[_ H] [_ [_ [_ Hx]]]].
  split; [apply H; reflexivity | exact Hx].
Defined.

(** ** C10 *)

Lemma drop_while_Forall (P : ascii -> Prop) (p : ascii -> bool) (l : list ascii) :
  Forall P l -> Forall P (drop_while p l).
Proof.
  induction l as [|c l IH]; intro H; cbn; [constructor|].
  inversion H; subst. destruct (p c); [exact (IH H3) | exact H].
Qed.

Lemma take_while_no_digit (l : list ascii) :
  Forall (fun c => is_digit c = false) l -> take_while is_digit l = [].
Proof. intro H. destruct l as [|c l]; cbn; [reflexivity|]. inversion H; subst. now rewrite H2. Qed.

Lemma parseInt10_no_digit (v : string) :
  Forall (fun c => is_digit c = false) (list_ascii_of_string v) -> parseInt10 v = NaN.
Proof.
  intro H. unfold parseInt10.
  assert (Hd := drop_while_Forall _ js_ws _ H).
  destruct (drop_while js_ws (list_ascii_of_string v)) as [|c r]; [reflexivity|].
  inversion Hd as [|? ? Hc Hr]; subst.
  destruct (Ascii.eqb c "-"%char); [rewrite take_while_no_digit by exact Hr; reflexivity|].
  destruct (Ascii.eqb c "+"%char); [rewrite take_while_no_digit by exact Hr; reflexivity|].
  rewrite take_while_no_digit by exact Hd. reflexivity.
Qed.

(** C10: the port is 8080 exactly from the fallback for an unset or empty
    [PORT]; any other value is handed to [parseInt(_, 10)], and a value
    without a decimal digit gives NaN, not 8080. *)
Theorem port_default_only_when_unset :
  forall penv : string -> option string,
  ((penv "PORT"%string = None \/ penv "PORT"%string = Some EmptyString) -> port penv = Num 8080) /\
  (forall v, v <> EmptyString -> penv "PORT"%string = Some v ->
     port penv = parseInt10 v /\
     (forallb (fun c => negb (is_digit c)) (list_ascii_of_string v) = true -> port penv = NaN)).
Proof.
  intro penv. split.
  - intros [H|H]; unfold port, port_source; rewrite H; reflexivity.
  - intros v Hv Hp. unfold port, port_source. rewrite Hp.
    rewrite (proj2 (String.eqb_neq v EmptyString) Hv).
    split; [reflexivity|]. intro Hnd. apply parseInt10_no_digit.
    rewrite Forall_forall. intros c Hc. rewrite forallb_forall in Hnd.
    apply negb_true_iff. exact (Hnd c Hc).
Qed.

Definition env_port_http (k : string) : option string :=
  if String.eqb k "PORT" then Some "http"%string else None.

Lemma port_default_only_when_unset_witness :
  ("http"%string <> EmptyString /\ env_port_http "PORT"%string = Some "http"%string /\
   forallb (fun c => negb (is_digit c)) (list_ascii_of_string "http") = true) /\
  port env_port_http = NaN.
Proof.
  split; [split; [discriminate | split; reflexivity]|].
  destruct (port_default_only_when_unset env_port_http) as [_ H].
  apply (H "http"%string); [discriminate | reflexivity | reflexivity].
Defined.

(** * Further properties of the code *)

(** ** Helper lemmas for the watcher *)

Lemma for_files_ext (d d' : fs) (l : list string) :
  (forall f, In f l -> test_f_and_sum d f = test_f_and_sum d' f) ->
  for_files d l = for_files d' l.
Proof.
  unfold for_files. generalize (mk_res 0 EmptyString) as acc.
  induction l as [|f l IH]; intros acc H; cbn; [reflexivity|].
  rewrite (H f (or_introl eq_refl)). apply IH. intros g Hg. apply H. now right.
Qed.

Lemma fingerprint_ext (d d' : fs) :
  (forall f, In f WATCH_FILES -> test_f_and_sum d f = test_f_and_sum d' f) ->
  fingerprint d = fingerprint d'.
Proof.
  intro H. unfold fingerprint, fingerprint_pipeline, watcher_hash_files.
  now rewrite (for_files_ext d d' WATCH_FILES H).
Qed.

Lemma tick_no_drift (d : fs) (s : store) (inst : Z) (w : write_result) :
  status (fingerprint d) = 0 -> read_previous s = out (fingerprint d) ->
  tick d s inst w = mk_tick [] s None.
Proof.
  intros Hs Hp. unfold tick. cbv zeta. rewrite Hs, Hp, String.eqb_refl. reflexivity.
Qed.

(** The four shapes a tick can take. *)
Lemma tick_cases (d : fs) (s : store) (inst : Z) (w : write_result) :
  let o := tick d s inst w in
  let c := out (fingerprint d) in
  (t_actions o = [] /\ t_store o = s /\
     (t_exit o = None \/ (status (fingerprint d) <> 0 /\ t_exit o = Some (status (fingerprint d))))) \/
  (t_actions o = [Install] /\ t_store o = s /\ inst <> 0 /\ t_exit o = Some inst) \/
  (t_actions o = [Install; WriteStore c; KillServers] /\ t_store o = Some (c ++ NL)%string /\
     status (fingerprint d) = 0 /\ c <> read_previous s /\ inst = 0 /\ w = WriteOk /\ t_exit o = None) \/
  (exists kept, w = WriteFailed kept /\ t_actions o = [Install] /\ t_store o = kept /\
     status (fingerprint d) = 0 /\ c <> read_previous s /\ inst = 0 /\ t_exit o = Some 1).
Proof.
  cbv zeta. unfold tick. cbv zeta.
  destruct (status (fingerprint d) =? 0) eqn:Es; cbn [negb].
  2:{ left. cbn [t_actions t_store t_exit]. repeat split. right. split; [now apply Z.eqb_neq | reflexivity]. }
  destruct (String.eqb (out (fingerprint d)) (read_previous s)) eqn:Ed; cbn [negb].
  2: destruct (String.eqb (out (fingerprint d)) EmptyString); cbn [negb].
  3: destruct (inst =? 0) eqn:Ei; cbn [negb].
  3: destruct w as [|kept].
  - left. cbn [t_actions t_store t_exit]. split; [reflexivity | split; [reflexivity | now left]].
  - left. cbn [t_actions t_store t_exit]. split; [reflexivity | split; [reflexivity | now left]].
  - right; right; left. cbn [t_actions t_store t_exit]. apply Z.eqb_eq in Es, Ei. apply String.eqb_neq in Ed.
    repeat split; assumption.
  - right; right; right. exists kept. cbn [t_actions t_store t_exit].
    apply Z.eqb_eq in Es, Ei. apply String.eqb_neq in Ed. repeat split; assumption.
  - right; left. cbn [t_actions t_store t_exit]. apply Z.eqb_neq in Ei. repeat split; assumption.
Qed.


Lemma run_ticks_noop (d : fs) (s : store) (l : list (fs * Z * write_result)) :
  Forall (fun t => fst (fst t) = d) l ->
  (forall inst w, tick d s inst w = mk_tick [] s None) ->
  run_ticks s l = ([], s, None).
Proof.
  intros Hl Hn. induction l as [|[[d' i] w] l IH]; [reflexivity|].
  apply Forall_cons_iff in Hl as [Hd Hl']. cbn in Hd. subst d'.
  cbn. rewrite Hn. cbn. now rewrite IH.
Qed.

(** ** Extras on the watcher and the startup *)

(** The fingerprint depends on the two watched files only. *)
Theorem fingerprint_only_watched_files (d d' : fs) :
  d "package.json"%string = d' "package.json"%string ->
  d "bun.lockb"%string = d' "bun.lockb"%string ->
  fingerprint d = fingerprint d'.
Proof.
  intros H1 H2. apply fingerprint_ext. intros f Hf.
  destruct Hf as [<-|[<-|[]]]; unfold test_f_and_sum, sha256sum_file; [rewrite H1 | rewrite H2]; reflexivity.
Qed.

Lemma fingerprint_only_watched_files_witness :
  (both_present "package.json"%string = dir_of (Regular pkg_v1) (Regular lock_v1) "package.json"%string /\
   both_present "bun.lockb"%string = dir_of (Regular pkg_v1) (Regular lock_v1) "bun.lockb"%string) /\
  fingerprint both_present =
    fingerprint (fun f => if String.eqb f "index.ts" then Regular "changed" else both_present f).
Proof.
  split; [split; reflexivity|]. apply fingerprint_only_watched_files; reflexivity.
Defined.

(** An unreadable watched file counts as an absent one: same listing,
    same status, same fingerprint. *)
Theorem unreadable_same_as_absent (d : fs) (f : string) :
  d f = Unreadable ->
  let d' := fun g => if String.eqb g f then Absent else d g in
  hash_files d = hash_files d' /\ fingerprint d = fingerprint d'.
Proof.
  intros H d'.
  assert (Ht : forall g, In g WATCH_FILES -> test_f_and_sum d g = test_f_and_sum d' g).
  { intros g _. unfold test_f_and_sum, sha256sum_file, d'.
    destruct (String.eqb g f) eqn:E; [apply String.eqb_eq in E; subst g; now rewrite H|reflexivity]. }
  split; [unfold hash_files; now apply for_files_ext | now apply fingerprint_ext].
Qed.

Lemma unreadable_same_as_absent_witness :
  lock_unreadable "bun.lockb"%string = Unreadable /\
  fingerprint lock_unreadable =
    fingerprint (fun g => if String.eqb g "bun.lockb" then Absent else lock_unreadable g).
Proof.
  split; [reflexivity|]. apply (unreadable_same_as_absent lock_unreadable "bun.lockb"%string); reflexivity.
Defined.

(** When the fingerprint pipeline and its redirection succeed, the value
    the startup stores (line 121) is read back by the watcher as its own
    fingerprint: with the files unchanged since startup, the first tick
    does nothing. *)
Theorem startup_store_matches_watcher (d : fs) (zw : bool) (inst : Z) (w : write_result) :
  status (fingerprint d) = 0 ->
  startup_hash_write d true zw = Some (Some (out (fingerprint_pipeline hash_files d))) /\
  read_previous (Some (out (fingerprint_pipeline hash_files d))) = out (fingerprint d) /\
  tick d (Some (out (fingerprint_pipeline hash_files d))) inst w =
    mk_tick [] (Some (out (fingerprint_pipeline hash_files d))) None.
Proof.
  intro Hs.
  assert (Hs' : status (fingerprint_pipeline hash_files d) = 0) by exact Hs.
  assert (Hr : read_previous (Some (out (fingerprint_pipeline hash_files d))) = out (fingerprint d))
    by reflexivity.
  split; [|split; [exact Hr | now apply tick_no_drift]].
  unfold startup_hash_write. cbv zeta. rewrite Hs'. reflexivity.
Qed.

Lemma startup_store_matches_watcher_witness :
  status (fingerprint both_present) = 0 /\
  tick both_present (Some (out (fingerprint_pipeline hash_files both_present))) 1 WriteOk =
    mk_tick [] (Some (out (fingerprint_pipeline hash_files both_present))) None.
Proof.
  split; [vm_compute; reflexivity|].
  apply (startup_store_matches_watcher both_present true). vm_compute. reflexivity.
Defined.


(** Over any number of ticks that all observe the same files, [bun install]
    runs at most once. *)
Theorem unchanged_files_install_at_most_once (d : fs) (s : store) (l : list (fs * Z * write_result)) :
  Forall (fun t => fst (fst t) = d) l ->
  (List.length (filter is_install (fst (fst (run_ticks s l)))) <= 1)%nat.
Proof.
  revert s. induction l as [|[[d' i] w] l IH]; intros s Hl; [cbn; lia|].
  apply Forall_cons_iff in Hl as [Hd Hl']. cbn in Hd. subst d'.
  cbn [run_ticks].
  destruct (tick_cases d s i w)
    as [[A [B [C|[_ C]]]]|[[A [B [_ C]]]|[[A [B [C [_ [_ [_ D]]]]]]|[kept [_ [A [_ [_ [_ [_ C]]]]]]]]]].
  - rewrite C, B. specialize (IH s Hl').
    destruct (run_ticks s l) as [[acts s'] e]. rewrite A. exact IH.
  - rewrite C, A. cbn [fst filter List.length]. lia.
  - rewrite C, A. cbn [fst filter List.length is_install]. lia.
  - rewrite D, B. rewrite (run_ticks_noop d).
    + rewrite A. cbn [fst filter List.length is_install app]. lia.
    + exact Hl'.
    + intros inst w'. apply tick_no_drift; [exact C | apply read_previous_echo].
  - rewrite C, A. cbn [fst filter List.length is_install]. lia.
Qed.

Lemma unchanged_files_install_at_most_once_witness :
  Forall (fun t => fst (fst t) = both_present)
    [(both_present, 0%Z, WriteOk); (both_present, 0%Z, WriteOk); (both_present, 0%Z, WriteOk)] /\
  (List.length (filter is_install
     (fst (fst (run_ticks stale
        [(both_present, 0%Z, WriteOk); (both_present, 0%Z, WriteOk); (both_present, 0%Z, WriteOk)])))) <= 1)%nat.
Proof.
  split; [repeat constructor|]. apply (unchanged_files_install_at_most_once both_present). repeat constructor.
Defined.

(** ** Extras on the startup *)

Lemma wait_loop_first (present : nat -> bool) (n i k : nat) :
  (i <= k < i + n)%nat -> present k = true ->
  (forall j, (i <= j < k)%nat -> present j = false) ->
  wait_loop n i present = repeat 2 (k - i).
Proof.
  revert i. induction n as [|n IH]; intros i Hk Hp Hb; [lia|].
  cbn [wait_loop]. destruct (present i) eqn:Ei.
  - assert (i = k).
    { destruct (Nat.eq_dec i k) as [|Hne]; [assumption|].
      rewrite (Hb i) in Ei by lia. discriminate. }
    subst. rewrite Nat.sub_diag. reflexivity.
  - assert (Hik : i <> k) by (intro; subst; congruence).
    rewrite (IH (S i)); [| lia | exact Hp | intros j Hj; apply Hb; lia].
    replace (k - i)%nat with (S (k - S i)) by lia. reflexivity.
Qed.

(** The wait for [package.json] (lines 98-106) stops at the first check
    that sees it: found at check [k], it has slept exactly [k - 1] times 2
    seconds. *)
Theorem startup_wait_stops_at_first_sight (present : nat -> bool) (k : nat) :
  (1 <= k <= 30)%nat -> present k = true ->
  (forall j, (1 <= j < k)%nat -> present j = false) ->
  wait_sleeps present = repeat 2 (k - 1).
Proof.
  intros Hk Hp Hb. unfold wait_sleeps. apply wait_loop_first; [lia | exact Hp | exact Hb].
Qed.

Lemma startup_wait_stops_at_first_sight_witness :
  ((1 <= 4 <= 30)%nat /\ Nat.leb 4 4 = true /\
   (forall j, (1 <= j < 4)%nat -> Nat.leb 4 j = false)) /\
  wait_sleeps (fun i => Nat.leb 4 i) = repeat 2 3.
Proof.
  assert (Hb : forall j, (1 <= j < 4)%nat -> Nat.leb 4 j = false)
    by (intros j Hj; apply Nat.leb_gt; lia).
  split; [split; [lia | split; [reflexivity | exact Hb]]|].
  apply (startup_wait_stops_at_first_sight (fun i => Nat.leb 4 i) 4); [lia | reflexivity | exact Hb].
Defined.

(** ** Extras on the supervisor *)

(** Without termination signals at most one server is alive at any time. *)
Theorem at_most_one_server_without_signals (e : list (string * string)) (evs : list event) (s : sup) :
  forallb (fun ev => negb (is_signal ev)) evs = true ->
  run (init_sup e) evs = Some s -> (List.length (alive s) <= 1)%nat.
Proof. exact (single_server_without_signals e evs s). Qed.

Lemma at_most_one_server_without_signals_witness :
  (forallb (fun ev => negb (is_signal ev)) [EvSpawn; EvExit 1 0; EvSleepDone; EvSpawn] = true /\
   run (init_sup []) [EvSpawn; EvExit 1 0; EvSleepDone; EvSpawn] =
     Some (mk_sup (Waiting 2) [2%nat] 3 (Some 2%nat) true []
             [(2%nat, mk_config server_cmd []); (1%nat, mk_config server_cmd [])] [])) /\
  (List.length (alive (mk_sup (Waiting 2) [2%nat] 3 (Some 2%nat) true []
             [(2%nat, mk_config server_cmd []); (1%nat, mk_config server_cmd [])] [])) <= 1)%nat.
Proof.
  split; [split; reflexivity|].
  apply (at_most_one_server_without_signals [] [EvSpawn; EvExit 1 0; EvSleepDone; EvSpawn]);
    reflexivity.
Defined.

Lemma watcher_down_step (s s' : sup) (ev : event) :
  watcher_up s = false -> step s ev = Some s' -> watcher_up s' = false.
Proof.
  intros Hw Hst. destruct s as [pc0 al np bp wu ts sp en]; cbn [watcher_up] in Hw; subst wu.
  destruct ev as [|p code| |sg|]; destruct pc0 as [|q|d|c]; cbn in Hst; try discriminate;
    repeat match type of Hst with context [if ?b then _ else _] => destruct b end;
    try discriminate; injection Hst as <-; reflexivity.
Qed.

Lemma signal_stops_watcher (s s' : sup) (sg : signal) :
  step s (EvSignal sg) = Some s' -> watcher_up s' = false.
Proof.
  intro Hst. destruct s as [pc0 al np bp wu ts sp en].
  destruct pc0; cbn in Hst; try discriminate; injection Hst as <-; reflexivity.
Qed.

(** Once a signal has run [cleanup], the watcher stays stopped: nothing
    restarts it, so no dependency-triggered kill happens afterwards. *)
Theorem no_detector_kill_after_signal (s s1 s2 : sup) (sg : signal) (evs : list event) :
  step s (EvSignal sg) = Some s1 -> run s1 evs = Some s2 ->
  watcher_up s2 = false /\ step s2 EvDetectorKill = None.
Proof.
  intros H1 Hr. assert (Hw : watcher_up s2 = false).
  { apply signal_stops_watcher in H1. clear s. revert s1 H1 Hr.
    induction evs as [|ev evs IH]; intros s1 Hw1 Hr; cbn in Hr.
    - now injection Hr as <-.
    - destruct (step s1 ev) as [s1'|] eqn:E; [|discriminate].
      exact (IH s1' (watcher_down_step s1 s1' ev Hw1 E) Hr). }
  split; [exact Hw|]. destruct s2 as [pc0 al np bp wu ts sp en]; cbn [watcher_up] in Hw; subst wu.
  destruct pc0; reflexivity.
Qed.

Lemma no_detector_kill_after_signal_witness :
  step sup_after_first_spawn (EvSignal SIGTERM) =
    Some (with_pc (cleanup sup_after_first_spawn) (Sleeping 2)) /\
  match run (with_pc (cleanup sup_after_first_spawn) (Sleeping 2)) [EvSleepDone; EvSpawn] with
  | Some s2 => watcher_up s2 = false /\ step s2 EvDetectorKill = None
  | None => False
  end.
Proof.
  split; [reflexivity|].
  destruct (run (with_pc (cleanup sup_after_first_spawn) (Sleeping 2)) [EvSleepDone; EvSpawn])
    as [s2|] eqn:Er; [|discriminate].
  exact (no_detector_kill_after_signal sup_after_first_spawn _ s2 SIGTERM _ eq_refl Er).
Defined.



Lemma spawn_balance_step (s s' : sup) (ev : event) :
  step s ev = Some s' ->
  (List.length (spawns s') + at_spawn (pc s') =
   List.length (spawns s) + at_spawn (pc s) + (if is_sleep_done ev then 1 else 0))%nat.
Proof.
  intro Hst. destruct s as [pc0 al np bp wu ts sp en].
  destruct ev as [|p code| |sg|]; destruct pc0 as [|q|d|c]; cbn in Hst; try discriminate;
    repeat match type of Hst with context [if ?b then _ else _] => destruct b end;
    try discriminate; injection Hst as <-; cbn; lia.
Qed.

(** Every server after the first is started only after a completed
    [sleep 2] of its own: the number of spawns never exceeds the number of
    completed restart delays plus one. *)
Theorem spawns_bounded_by_delays (e : list (string * string)) (evs : list event) (s : sup) :
  run (init_sup e) evs = Some s ->
  (List.length (spawns s) <= List.length (filter is_sleep_done evs) + 1)%nat.
Proof.
  intro Hr.
  assert (H : forall s0, run s0 evs = Some s ->
            (List.length (spawns s) + at_spawn (pc s) =
             List.length (spawns s0) + at_spawn (pc s0) + List.length (filter is_sleep_done evs))%nat).
  { clear Hr. induction evs as [|ev evs IH]; intros s0 Hr; cbn in Hr.
    - injection Hr as <-. cbn. lia.
    - destruct (step s0 ev) as [s1|] eqn:E; [|discriminate].
      rewrite (IH s1 Hr), (spawn_balance_step s0 s1 ev E).
      destruct ev; cbn [filter is_sleep_done List.length]; lia. }
  specialize (H _ Hr). cbn in H. lia.
Qed.

Lemma spawns_bounded_by_delays_witness :
  run (init_sup []) [EvSpawn; EvExit 1 1; EvSleepDone; EvSpawn] =
    Some (mk_sup (Waiting 2) [2%nat] 3 (Some 2%nat) true []
            [(2%nat, mk_config server_cmd []); (1%nat, mk_config server_cmd [])] []) /\
  (List.length (spawns (mk_sup (Waiting 2) [2%nat] 3 (Some 2%nat) true []
            [(2%nat, mk_config server_cmd []); (1%nat, mk_config server_cmd [])] [])) <=
   List.length (filter is_sleep_done [EvSpawn; EvExit 1 1; EvSleepDone; EvSpawn]) + 1)%nat.
Proof.
  split; [reflexivity|]. apply (spawns_bounded_by_delays [] [EvSpawn; EvExit 1 1; EvSleepDone; EvSpawn]).
  reflexivity.
Defined.




(** ** Helper lemmas for the handlers *)

Lemma split_on_length (sep : ascii) (cur l : list ascii) :
  List.length (split_on sep cur l) = S (count_occ ascii_dec l sep).
Proof.
  revert cur. induction l as [|c l IH]; intro cur; cbn; [reflexivity|].
  destruct (Ascii.eqb_spec c sep), (ascii_dec c sep); try congruence; cbn; rewrite IH; reflexivity.
Qed.


Lemma split_on_nonempty (sep : ascii) (cur l : list ascii) : split_on sep cur l <> [].
Proof.
  revert cur. induction l as [|c l IH]; intro cur; cbn; [discriminate|].
  destruct (Ascii.eqb c sep); [discriminate | apply IH].
Qed.

Lemma split_on_join (sep : ascii) (cur l : list ascii) :
  join_with sep (split_on sep cur l) = rev cur ++ l.
Proof.
  revert cur. induction l as [|c l IH]; intro cur; cbn; [now rewrite app_nil_r|].
  destruct (Ascii.eqb_spec c sep).
  - subst c. specialize (IH []). cbn in IH.
    destruct (split_on sep [] l) eqn:E; [exfalso; exact (split_on_nonempty sep [] l E)|].
    cbn [join_with]. rewrite <- IH. reflexivity.
  - rewrite IH. cbn. rewrite <- app_assoc. reflexivity.
Qed.

Lemma split_on_parts (P : ascii -> Prop) (sep : ascii) (cur l : list ascii) :
  Forall P cur -> Forall P l -> Forall (Forall P) (split_on sep cur l).
Proof.
  revert cur. induction l as [|c l IH]; intros cur Hc Hl; cbn.
  - constructor; [now apply Forall_rev | constructor].
  - apply Forall_cons_iff in Hl as [Hc' Hl']. destruct (Ascii.eqb c sep).
    + constructor; [now apply Forall_rev | apply IH; [constructor | exact Hl']].
    + apply IH; [constructor; assumption | exact Hl'].
Qed.

Lemma drop_while_none (p : ascii -> bool) (l : list ascii) :
  Forall (fun c => p c = false) l -> drop_while p l = l.
Proof. destruct l as [|c l]; intro H; cbn; [reflexivity|]. inversion H; subst. now rewrite H2. Qed.

Lemma js_trim_none (l : list ascii) : Forall (fun c => js_ws c = false) l -> js_trim l = l.
Proof.
  intro H. unfold js_trim. rewrite (drop_while_none _ l H), drop_while_none.
  - apply rev_involutive.
  - now apply Forall_rev.
Qed.

Lemma concat_strings (sep : ascii) (parts : list (list ascii)) :
  String.concat (String sep EmptyString) (map string_of_list_ascii parts) =
  string_of_list_ascii (join_with sep parts).
Proof.
  induction parts as [|x [|y rest] IH]; [reflexivity|reflexivity|].
  change (string_of_list_ascii x ++ String sep EmptyString ++
          String.concat (String sep EmptyString) (map string_of_list_ascii (y :: rest)) =
          string_of_list_ascii (x ++ sep :: join_with sep (y :: rest)))%string.
  rewrite IH. rewrite <- (string_of_list_ascii_of_string (string_of_list_ascii x ++ _)).
  rewrite !list_ascii_append, !list_ascii_of_string_of_list_ascii. reflexivity.
Qed.

Lemma uniq_seen_spec (seen l : list string) :
  NoDup (uniq_seen seen l) /\
  (forall x, In x (uniq_seen seen l) <-> In x l /\ ~ In x seen).
Proof.
  revert seen. induction l as [|y l IH]; intro seen; cbn.
  - split; [constructor | tauto].
  - destruct (existsb (String.eqb y) seen) eqn:E.
    + destruct (IH seen) as [Hn Hi]. split; [exact Hn|]. intro x. rewrite Hi.
      apply existsb_exists in E as [z [Hz Ez]]. apply String.eqb_eq in Ez. subst z.
      split; [tauto|]. intros [[<-|H] Hs]; tauto.
    + destruct (IH (y :: seen)) as [Hn Hi].
      assert (Hy : ~ In y seen).
      { intro H. assert (existsb (String.eqb y) seen = true)
          by (apply existsb_exists; exists y; split; [exact H | apply String.eqb_refl]). congruence. }
      split.
      * constructor; [|exact Hn]. intro H. apply Hi in H as [_ H]. apply H. now left.
      * intro x. cbn [In]. rewrite Hi. cbn [In]. split.
        -- intros [<-|[H1 H2]]; [split; [now left | exact Hy] | split; [now right | tauto]].
        -- intros [H1 H2]. destruct (String.eqb_spec y x) as [Eyx|Nyx]; [now left|].
           right. split; [destruct H1; [congruence | assumption] | intros [H3|H3]; [congruence | tauto]].
Qed.

Lemma chunks_of_spec (k fuel : nat) (l : list string) :
  (1 <= k)%nat -> (List.length l <= fuel)%nat ->
  concat (chunks_of fuel k l) = l /\
  Forall (fun c => c <> [] /\ (List.length c <= k)%nat) (chunks_of fuel k l) /\
  Forall (fun c => List.length c = k) (removelast (chunks_of fuel k l)).
Proof.
  intro Hk. revert l. induction fuel as [|f IH]; intros l Hl.
  - destruct l; cbn in Hl; [|lia]. cbn. repeat constructor.
  - destruct l as [|x r]; [cbn; repeat constructor|].
    cbn [chunks_of]. remember (x :: r) as l eqn:El.
    assert (Hs : (List.length (skipn k l) <= f)%nat) by (rewrite length_skipn; lia).
    destruct (IH (skipn k l) Hs) as [Hc [Hf Hr]]. split; [|split].
    + cbn [concat]. rewrite Hc. apply firstn_skipn.
    + constructor; [|exact Hf]. split.
      * rewrite El. destruct k as [|k]; [lia|]. cbn. discriminate.
      * rewrite length_firstn. lia.
    + cbn [removelast]. destruct (chunks_of f k (skipn k l)) as [|c cs] eqn:E; [constructor|].
      constructor; [|exact Hr].
      assert (Hne : skipn k l <> []) by (intro Hn; rewrite Hn in E; destruct f; discriminate).
      assert (Hlen : (k < List.length l)%nat).
      { destruct (Nat.lt_ge_cases k (List.length l)) as [H|H]; [exact H|].
        exfalso. apply Hne. apply skipn_all2. exact H. }
      rewrite length_firstn. lia.
Qed.

(** ** Extras on the request handlers *)

(** [handleRequest] answers 404 exactly for the paths outside the nine it
    routes (matching is exact: no trailing slash, no case folding), and
    sends each routed path to a handler of its own. *)
Theorem handleRequest_routes (path : string) :
  (handleRequest path = RNotFound <-> ~ In path ROUTED_PATHS) /\
  (forall q, In path ROUTED_PATHS -> In q ROUTED_PATHS -> handleRequest path = handleRequest q -> path = q).
Proof.
  split.
  - unfold handleRequest, ROUTED_PATHS.
    repeat match goal with
           | |- context [String.eqb path ?q] => destruct (String.eqb_spec path q) as [->|?]
           end;
      cbn; split; intro H;
      first [ discriminate H | reflexivity | exfalso; apply H; cbn; tauto
            | intro Hin; cbn in Hin; intuition congruence ].
  - intros q Hp Hq. unfold ROUTED_PATHS in Hp, Hq. cbn in Hp, Hq.
    repeat destruct Hp as [<-|Hp]; try contradiction;
    repeat destruct Hq as [<-|Hq]; try contradiction;
    intro H; vm_compute in H; first [reflexivity | discriminate H].
Qed.

(** [encryptHandler] and [validateHandler] answer 405 to every method other
    than exactly [POST] (the comparison is case-sensitive), whatever the
    body; the body is not read. *)
Theorem non_post_is_405 (email_ok : string -> bool) (method : string) (body : option jvalue) :
  method <> "POST"%string ->
  encryptHandler method body = EncError 405 "Method not allowed. Use POST." /\
  validate_status (validateHandler email_ok method body) = 405.
Proof.
  intro Hm. apply String.eqb_neq in Hm.
  unfold encryptHandler, validateHandler. rewrite Hm. split; reflexivity.
Qed.

Lemma non_post_is_405_witness :
  "post"%string <> "POST"%string /\
  encryptHandler "post" (Some (JObject [("text"%string, JString "hi")])) =
    EncError 405 "Method not allowed. Use POST." /\
  validate_status (validateHandler (fun _ => true) "post" (Some (JObject [("text"%string, JString "hi")]))) = 405.
Proof.
  split; [discriminate|]. apply (non_post_is_405 (fun _ => true)). discriminate.
Defined.

(** A POST to [/encrypt] ends in the catch branch before [CryptoJS] is
    reached exactly when the body does not parse or parses to [null]
    (reading [body.text] then throws); every other body is handed to
    [CryptoJS.AES.encrypt]. *)
Theorem encrypt_400_iff (body : option jvalue) :
  encryptHandler "POST" body = EncError 400 "Invalid JSON" <-> (body = None \/ body = Some JNull).
Proof.
  split.
  - intro H. destruct body as [b|]; [|now left]. right.
    destruct b; try reflexivity; exfalso.
    all: unfold encryptHandler in H; rewrite String.eqb_refl in H; cbn [negb] in H.
    all: match type of H with
         | context [get_prop ?b _] =>
             assert (Hg : get_prop b "text" <> TypeErr)
               by (cbn [get_prop]; try destruct (lookup_last _ _); discriminate);
             destruct (get_prop b "text"); [contradiction | |];
             destruct (js_or_prop _ _), (js_or_prop _ _); discriminate H
         end.
  - intros [->| ->]; reflexivity.
Qed.

(** A POST whose JSON body is neither an object nor [null] (a number, a
    string, a boolean, an array) has no [text] or [key]: it is answered 200
    with the empty text, encrypted under ['default-key']. *)
Theorem encrypt_non_object_body (v : jvalue) :
  v <> JNull -> (forall fields, v <> JObject fields) ->
  encryptHandler "POST" (Some v) = EncOk EmptyString "default-key".
Proof.
  intros Hn Ho. destruct v; [congruence|reflexivity|reflexivity|reflexivity|reflexivity|].
  exfalso. exact (Ho fields eq_refl).
Qed.

Lemma encrypt_non_object_body_witness :
  (JNumber 5 1 <> JNull /\ (forall fields, JNumber 5 1 <> JObject fields)) /\
  encryptHandler "POST" (Some (JNumber 5 1)) = EncOk EmptyString "default-key".
Proof.
  split; [split; [discriminate | intros fields; discriminate]|].
  apply encrypt_non_object_body; [discriminate | intros fields; discriminate].
Defined.

(** For an object body whose [text] and [key] are absent or strings, the
    handler encrypts [text], or the empty text, under [key], where an
    absent or empty key falls back to ['default-key']. *)
Theorem encrypt_object_body (fields : list (string * jvalue)) (t k : option string) :
  lookup_last "text" fields = option_map JString t ->
  lookup_last "key" fields = option_map JString k ->
  encryptHandler "POST" (Some (JObject fields)) = EncOk (js_or t EmptyString) (js_or k "default-key").
Proof.
  intros Ht Hk. unfold encryptHandler. cbn [negb String.eqb Ascii.eqb Bool.eqb get_prop].
  rewrite Ht. cbn [get_prop]. rewrite Hk.
  destruct t as [t|]; destruct k as [k|]; cbn [option_map js_or_prop truthy js_or];
    try destruct (String.eqb t EmptyString) eqn:Et; try destruct (String.eqb k EmptyString) eqn:Ek;
    cbn [negb]; try (apply String.eqb_eq in Et; subst t); reflexivity.
Qed.

Lemma encrypt_object_body_witness :
  (lookup_last "text" [("text"%string, JString "hi"); ("key"%string, JString EmptyString)] =
     option_map JString (Some "hi"%string) /\
   lookup_last "key" [("text"%string, JString "hi"); ("key"%string, JString EmptyString)] =
     option_map JString (Some EmptyString)) /\
  encryptHandler "POST" (Some (JObject [("text"%string, JString "hi"); ("key"%string, JString EmptyString)])) =
    EncOk "hi" "default-key".
Proof.
  split; [split; reflexivity|].
  exact (encrypt_object_body [("text"%string, JString "hi"); ("key"%string, JString EmptyString)]
           (Some "hi"%string) (Some EmptyString) eq_refl eq_refl).
Defined.

(** [validateHandler] accepts exactly a POST of a JSON object whose last
    [email] is a string passing the email check and whose last [age] is an
    integer from 18 to 120; the data it returns holds these two values
    only, whatever other keys the object has. *)
Theorem validate_accepts_iff (email_ok : string -> bool) (method : string) (body : option jvalue)
    (e : string) (n : Z) (d : positive) :
  validateHandler email_ok method body = VValid e n d <->
  method = "POST"%string /\
  exists fields, body = Some (JObject fields) /\
    lookup_last "email" fields = Some (JString e) /\ email_ok e = true /\
    lookup_last "age" fields = Some (JNumber n d) /\
    exists a, 18 <= a <= 120 /\ n = a * Zpos d.
Proof.
  unfold validateHandler. destruct (String.eqb_spec method "POST") as [->|Hm]; cbn [negb].
  2:{ split; [discriminate | intros [H _]; contradiction]. }
  split.
  - intro H. split; [reflexivity|].
    destruct body as [[| | | | |fields]|]; try discriminate.
    exists fields. split; [reflexivity|].
    destruct (lookup_last "email" fields) as [[| | |e'| |]|]; try discriminate;
    destruct (lookup_last "age" fields) as [[| |n' d'| | |]|]; try discriminate.
    destruct (email_ok e' && zod_age_ok n' d')%bool eqn:Eok; [|discriminate].
    injection H as -> -> ->. apply andb_prop in Eok as [He Ha].
    unfold zod_age_ok in Ha. apply andb_prop in Ha as [Ha Hmax]. apply andb_prop in Ha as [Hint Hmin].
    apply Z.eqb_eq in Hint. apply Z.leb_le in Hmin, Hmax.
    split; [reflexivity|]. split; [exact He|]. split; [reflexivity|].
    exists (n / Zpos d). pose proof (Z.div_mod n (Zpos d) ltac:(lia)) as Hdm.
    rewrite Hint, Z.add_0_r in Hdm. set (q := n / Zpos d) in *.
    split; [split; nia | lia].
  - intros [_ [fields [-> [He [Hok [Ha [a [Hr ->]]]]]]]]. rewrite He, Ha.
    unfold zod_age_ok. rewrite Hok, Z_mod_mult. cbn [andb Z.eqb].
    replace (18 * Zpos d <=? a * Zpos d) with true by (symmetry; apply Z.leb_le; nia).
    replace (a * Zpos d <=? 120 * Zpos d) with true by (symmetry; apply Z.leb_le; nia).
    reflexivity.
Qed.

(** The items of [/utils] (line 152): one more than the number of commas
    of the input, and each comes back trimmed. *)
Theorem utils_items_count (input : string) :
  List.length (utils_arr input) = S (count_occ ascii_dec (list_ascii_of_string input) ",")%char.
Proof. unfold utils_arr. rewrite length_map. apply split_on_length. Qed.

(** An input without white space is split and joined back with commas to
    itself. *)
Theorem utils_items_round_trip (input : string) :
  Forall (fun c => js_ws c = false) (list_ascii_of_string input) ->
  String.concat "," (utils_arr input) = input.
Proof.
  intro H. unfold utils_arr.
  assert (Hp := split_on_parts _ ","%char [] _ (Forall_nil _) H).
  rewrite (map_ext_in _ string_of_list_ascii).
  - change ","%string with (String ","%char EmptyString).
    rewrite concat_strings, split_on_join. cbn [rev app]. apply string_of_list_ascii_of_string.
  - intros p Hin. rewrite Forall_forall in Hp. now rewrite js_trim_none by (apply Hp; exact Hin).
Qed.

Lemma utils_items_round_trip_witness :
  Forall (fun c => js_ws c = false) (list_ascii_of_string "a,,b,") /\
  String.concat "," (utils_arr "a,,b,") = "a,,b,"%string.
Proof.
  split; [repeat constructor|]. apply utils_items_round_trip. repeat constructor.
Defined.

(** [action=unique]: the result has no duplicates and the same items as
    the input. *)
Theorem utils_unique_result (param : string -> option string) :
  js_or (param "action"%string) "shuffle" = "unique"%string ->
  exists r, u_result (utilsHandler param) = UList r /\ NoDup r /\
    (forall x, In x r <-> In x (u_input (utilsHandler param))).
Proof.
  intro Ha. unfold utilsHandler. cbv zeta. rewrite Ha. cbn [u_result u_input String.eqb Ascii.eqb Bool.eqb].
  eexists. split; [reflexivity|]. unfold lodash_uniq.
  destruct (uniq_seen_spec [] (utils_arr (js_or (param "input"%string) "1,2,3,4,5"))) as [Hn Hi].
  split; [exact Hn|]. intro x. rewrite Hi. cbn. tauto.
Qed.


Lemma utils_unique_result_witness :
  js_or (utils_params (Some "unique"%string) (Some "b,a, b"%string) None "action"%string) "shuffle"
    = "unique"%string /\
  exists r, u_result (utilsHandler (utils_params (Some "unique"%string) (Some "b,a, b"%string) None)) = UList r /\
    NoDup r /\ (forall x, In x r <-> In x (u_input (utilsHandler (utils_params (Some "unique"%string) (Some "b,a, b"%string) None)))).
Proof. split; [reflexivity|]. apply utils_unique_result. reflexivity. Defined.

(** [action=chunk] with a size [z >= 1]: the chunks concatenate back to the
    input items, none is empty or longer than [z], and all but the last
    hold exactly [z] items. *)
Theorem utils_chunk_result (param : string -> option string) (z : Z) :
  js_or (param "action"%string) "shuffle" = "chunk"%string ->
  parseInt10 (js_or (param "size"%string) "2") = Num z -> 1 <= z ->
  exists cs, u_result (utilsHandler param) = UChunks cs /\
    concat cs = u_input (utilsHandler param) /\
    Forall (fun c => c <> [] /\ (List.length c <= Z.to_nat z)%nat) cs /\
    Forall (fun c => List.length c = Z.to_nat z) (removelast cs).
Proof.
  intros Ha Hs Hz. unfold utilsHandler. cbv zeta. rewrite Ha, Hs.
  cbn [u_result u_input String.eqb Ascii.eqb Bool.eqb].
  eexists. split; [reflexivity|]. unfold lodash_chunk. cbv zeta.
  replace (Z.max z 0) with z by lia. replace (z <? 1) with false by (symmetry; apply Z.ltb_ge; lia).
  rewrite orb_false_r.
  set (arr := utils_arr (js_or (param "input"%string) "1,2,3,4,5")).
  destruct (Nat.eqb (List.length arr) 0) eqn:E0.
  - apply Nat.eqb_eq, length_zero_iff_nil in E0. rewrite E0. cbn. repeat constructor.
  - apply chunks_of_spec; lia.
Qed.

Lemma utils_chunk_result_witness :
  (js_or (utils_params (Some "chunk"%string) (Some "a, b,c , d,e"%string) None "action"%string) "shuffle"
     = "chunk"%string /\
   parseInt10 (js_or (utils_params (Some "chunk"%string) (Some "a, b,c , d,e"%string) None "size"%string) "2")
     = Num 2 /\ 1 <= 2) /\
  exists cs, u_result (utilsHandler (utils_params (Some "chunk"%string) (Some "a, b,c , d,e"%string) None))
               = UChunks cs /\
    concat cs = u_input (utilsHandler (utils_params (Some "chunk"%string) (Some "a, b,c , d,e"%string) None)) /\
    Forall (fun c => c <> [] /\ (List.length c <= Z.to_nat 2)%nat) cs /\
    Forall (fun c => List.length c = Z.to_nat 2) (removelast cs).
Proof.
  split; [split; [reflexivity | split; [reflexivity | lia]]|].
  apply utils_chunk_result; [reflexivity | reflexivity | lia].
Defined.

(** [action=chunk] with a size that does not parse, or parses below 1
    (e.g. [size=0]: the string ['0'] is truthy, so no default applies),
    gives no chunks at all. *)
Theorem utils_chunk_empty (param : string -> option string) :
  js_or (param "action"%string) "shuffle" = "chunk"%string ->
  match parseInt10 (js_or (param "size"%string) "2") with NaN => True | Num z => z < 1 end ->
  u_result (utilsHandler param) = UChunks [].
Proof.
  intros Ha Hs. unfold utilsHandler. cbv zeta. rewrite Ha.
  cbn [u_result u_input String.eqb Ascii.eqb Bool.eqb]. unfold lodash_chunk. cbv zeta.
  destruct (parseInt10 (js_or (param "size"%string) "2")) as [|z].
  - rewrite orb_true_r. reflexivity.
  - replace (Z.max z 0 <? 1) with true by (symmetry; apply Z.ltb_lt; lia).
    rewrite orb_true_r. reflexivity.
Qed.

Lemma utils_chunk_empty_witness :
  (js_or (utils_params (Some "chunk"%string) None (Some "0"%string) "action"%string) "shuffle"
     = "chunk"%string /\
   parseInt10 (js_or (utils_params (Some "chunk"%string) None (Some "0"%string) "size"%string) "2") = Num 0) /\
  u_result (utilsHandler (utils_params (Some "chunk"%string) None (Some "0"%string))) = UChunks [].
Proof.
  split; [split; reflexivity|]. apply utils_chunk_empty; [reflexivity|]. vm_compute. reflexivity.
Defined.
